(** * PrismaPilot: the advanced-features decorators, the CSV exporter,
      and the pagination and filter helpers

    A shallow embedding of [src/src/index.ts] (the part that is
    [advanced-features.ts]) together with the helpers the edge-case tests
    exercise.  JavaScript data is embedded as a first-order [value] type,
    module-level mutable state as an explicit [world] that every decorator
    threads, and rejected promises / thrown errors as a [Throw] completion. *)

From Stdlib Require Import ZArith QArith Qround Lia.
From Stdlib Require Import Ascii String DecimalString.
From stdpp Require Import base option list strings gmap.

Set Warnings "-register-all".

Local Open Scope Z_scope.

(** ** JavaScript data *)

Module Js.

(** Plain JavaScript data.  A number [VNum n] is the integer [n]; a
    BigInt is [VBigInt n].  An object is a plain object (its prototype is
    [Object.prototype]) written as the list of its property definitions,
    in order, as in an object literal: defining a name again replaces the
    value and keeps the place of the first definition. *)
Inductive value : Type :=
| VUndefined
| VNull
| VBool (b : bool)
| VNum (n : Z)
| VStr (s : string)
| VArr (elems : list value)
| VObj (props : list (string * value))
| VBigInt (n : Z).

Definition obj : Type := list (string * value).

(** [o[k]] among the own properties: the last definition of [k], [None]
    when there is none. *)
Fixpoint obj_get (o : obj) (k : string) : option value :=
  match o with
  | [] => None
  | (k', v) :: o' =>
      match obj_get o' k with
      | Some v' => Some v'
      | None => if String.eqb k k' then Some v else None
      end
  end.

(** Property read of an own property; [undefined] when there is none. *)
Definition prop (o : obj) (k : string) : value :=
  match obj_get o k with
  | Some v => v
  | None => VUndefined
  end.

Definition has_key (o : obj) (k : string) : bool :=
  existsb (fun kv => String.eqb k (fst kv)) o.

(** [o[k] = v]: an existing property keeps its place, a new one goes last. *)
Definition obj_set (k : string) (v : value) (o : obj) : obj :=
  if has_key o k then map (fun kv => if String.eqb k (fst kv) then (k, v) else kv) o
  else o ++ [(k, v)].

(** [{...target, ...source}] once [target] is already built: every
    property of [source] is assigned in turn. *)
Definition assign (target source : obj) : obj :=
  fold_left (fun acc kv => obj_set (fst kv) (snd kv) acc) source target.

(** *** The order of [Object.keys] *)

Definition digit_of (c : ascii) : option N :=
  let n := N_of_ascii c in
  if (48 <=? n)%N && (n <=? 57)%N then Some (n - 48)%N else None.

Fixpoint digits_value (acc : N) (s : string) : option N :=
  match s with
  | EmptyString => Some acc
  | String c s' =>
      match digit_of c with
      | Some d => digits_value (10 * acc + d)%N s'
      | None => None
      end
  end.

(** An array index: the decimal text, without a leading zero, of an
    integer from [0] to [2^32 - 2]. *)
Definition array_index (k : string) : option N :=
  match k with
  | EmptyString => None
  | String c rest =>
      if Ascii.eqb c "0"%char && negb (String.eqb rest EmptyString) then None
      else
        match digits_value 0 k with
        | Some n => if (n <=? 4294967294)%N then Some n else None
        | None => None
        end
  end.

Fixpoint insert_index (x : N * string) (l : list (N * string)) : list (N * string) :=
  match l with
  | [] => [x]
  | y :: l' => if (fst x <=? fst y)%N then x :: l else y :: insert_index x l'
  end.

Definition sort_indices (l : list (N * string)) : list (N * string) :=
  foldr insert_index [] l.

(** OrdinaryOwnPropertyKeys on names listed once each: the array indices
    first, ascending, then the other names in the order given. *)
Definition own_key_order (names : list string) : list string :=
  map snd (sort_indices (omap (fun k => (fun n => (n, k)) <$> array_index k) names))
  ++ List.filter (fun k => negb (bool_decide (is_Some (array_index k)))) names.

(** [Object.keys(o)]: each name once; the array indices first, ascending,
    then the other names in the order of first definition. *)
Definition keys (o : obj) : list string := own_key_order (map fst (assign [] o)).

(** [String(n)] for an index, and the decimal text of an integer. *)
Definition string_of_nat (n : nat) : string :=
  NilZero.string_of_uint (Nat.to_uint n).

Definition string_of_Z (n : Z) : string :=
  NilZero.string_of_int (Z.to_int n).

Fixpoint indexed_from {A : Type} (i : nat) (l : list A) : list (string * A) :=
  match l with
  | [] => []
  | x :: l' => (string_of_nat i, x) :: indexed_from (S i) l'
  end.

Fixpoint chars (s : string) : list value :=
  match s with
  | EmptyString => []
  | String c s' => VStr (String c EmptyString) :: chars s'
  end.

(** The own enumerable properties that [{...v}] copies: those of an object,
    the indexed elements of an array or of a string, nothing for
    [undefined], [null], a number, a boolean or a BigInt. *)
Definition own_props (v : value) : obj :=
  match v with
  | VObj o => o
  | VArr l => indexed_from 0 l
  | VStr s => indexed_from 0 (chars s)
  | _ => []
  end.

(** The object literal [{...a, ...b}]. *)
Definition spread2 (a b : value) : obj :=
  assign (assign [] (own_props a)) (own_props b).

(** Truthiness of a value ([if (v)], [!v], [v || d]). *)
Definition truthy (v : value) : bool :=
  match v with
  | VUndefined | VNull => false
  | VBool b => b
  | VNum n | VBigInt n => negb (n =? 0)%Z
  | VStr s => negb (String.eqb s "")
  | VArr _ | VObj _ => true
  end.

End Js.

(** ** Export utilities: [toCSV] (index.ts, section 6 of the module) *)

Module Csv.
Import Js.

Definition comma : ascii := ascii_of_nat 44.
Definition dquote : ascii := ascii_of_nat 34.
Definition backslash : ascii := ascii_of_nat 92.
Definition LF : ascii := ascii_of_nat 10.
Definition CR : ascii := ascii_of_nat 13.

Definition str1 (c : ascii) : string := String c EmptyString.

(** [s.includes(needle)]: [needle] occurs somewhere in [s]. *)
Fixpoint includes (s needle : string) : bool :=
  String.prefix needle s ||
  match s with
  | EmptyString => false
  | String _ s' => includes s' needle
  end.

(** [s.replace(/c/g, by)] for a one-character pattern. *)
Fixpoint replace_all (c : ascii) (by_ : string) (s : string) : string :=
  match s with
  | EmptyString => EmptyString
  | String a s' =>
      if Ascii.eqb a c then by_ +:+ replace_all c by_ s'
      else String a (replace_all c by_ s')
  end.

(** *** Quoting a JSON string *)

Definition hex_digit (n : nat) : ascii :=
  if (n <? 10)%nat then ascii_of_nat (48 + n) else ascii_of_nat (87 + n).

(** QuoteJSONString, one code unit at a time. *)
Definition quote_json_char (c : ascii) : string :=
  let n := nat_of_ascii c in
  if Ascii.eqb c dquote then String backslash (str1 dquote)
  else if Ascii.eqb c backslash then String backslash (str1 backslash)
  else if (n =? 8)%nat then String backslash "b"
  else if (n =? 9)%nat then String backslash "t"
  else if (n =? 10)%nat then String backslash "n"
  else if (n =? 12)%nat then String backslash "f"
  else if (n =? 13)%nat then String backslash "r"
  else if (n <? 32)%nat then
    String backslash ("u00" +:+ String (hex_digit (n / 16)) (str1 (hex_digit (n mod 16))))
  else str1 c.

Fixpoint quote_json_body (s : string) : string :=
  match s with
  | EmptyString => EmptyString
  | String c s' => quote_json_char c +:+ quote_json_body s'
  end.

Definition quote_json (s : string) : string :=
  String dquote (quote_json_body s +:+ str1 dquote).

(** *** The two local helpers of [toCSV] that work on text *)

Definition needsQuotes (raw : string) : bool :=
  includes raw (str1 comma) || includes raw (str1 dquote)
  || includes raw (str1 LF) || includes raw (str1 CR).

Definition escapeCsv (raw : string) : string :=
  let escaped := replace_all dquote (String dquote (str1 dquote)) raw in
  if needsQuotes raw then String dquote (escaped +:+ str1 dquote) else escaped.

(** *** Text of values *)

Definition MAX_SAFE_INTEGER : Z := 9007199254740991.

(** How a property of an object comes out of [JSON.stringify]. *)
Inductive member_text : Type :=
| Omitted              (* its value is [undefined] *)
| Text (t : string)
| Throws.

(** The property with value [v], whose text is [text] when it has one. *)
Definition member_of (v : value) (text : option string) : member_text :=
  match v, text with
  | VUndefined, _ => Omitted
  | _, Some t => Text t
  | _, None => Throws
  end.

(** The last definition of a name, as [obj_get] reads it. *)
Fixpoint assoc_last {A : Type} (l : list (string * A)) (k : string) : option A :=
  match l with
  | [] => None
  | (k', a) :: l' =>
      match assoc_last l' k with
      | Some a' => Some a'
      | None => if String.eqb k k' then Some a else None
      end
  end.

(** The last step of SerializeJSONArray and SerializeJSONObject: the
    parts between the brackets.  Without a gap they are separated by
    commas; with one, each part is on a line of its own, indented by
    [indent] and the gap, and the closing bracket is indented by
    [indent]. *)
Definition wrap (gap indent opening closing : string) (parts : list string) : string :=
  match parts with
  | [] => opening +:+ closing
  | _ =>
      if String.eqb gap EmptyString
      then opening +:+ String.concat "," parts +:+ closing
      else
        let inner := indent +:+ gap in
        opening +:+ str1 LF +:+ inner
        +:+ String.concat ("," +:+ str1 LF +:+ inner) parts
        +:+ str1 LF +:+ indent +:+ closing
  end.

(** The text of an object from the texts of its properties, taken in the
    order of [names]; [None] when one of them throws. *)
Definition object_text (gap indent : string) (names : list string)
    (members : list (string * member_text)) : option string :=
  (fun parts => wrap gap indent "{" "}" (concat parts)) <$>
    mapM (fun k =>
            match assoc_last members k with
            | Some (Text t) =>
                Some [quote_json k
                      +:+ (if String.eqb gap EmptyString then ":" else ": ") +:+ t]
            | Some Omitted | None => Some []
            | Some Throws => None
            end) names.

Section Text.
(** [String(n)] of the platform for a number that is not a safe integer
    (the text may round, or take the exponent form). *)
Variable unsafe_number_text : Z -> string.

(** [String(n)]: the decimal text for a safe integer. *)
Definition number_text (n : Z) : string :=
  if (Z.abs n <=? MAX_SAFE_INTEGER)%Z then string_of_Z n else unsafe_number_text n.

(** ToString, as [String(v)], a template literal and
    [Array.prototype.join] apply it. *)
Fixpoint to_string (v : value) : string :=
  match v with
  | VUndefined => "undefined"
  | VNull => "null"
  | VBool b => if b then "true" else "false"
  | VNum n => number_text n
  | VBigInt n => string_of_Z n
  | VStr s => s
  | VArr l =>
      String.concat ","
        (map (fun e => match e with
                       | VUndefined | VNull => EmptyString
                       | _ => to_string e
                       end) l)
  | VObj _ => "[object Object]"
  end.

(** [JSON.stringify(v, null, space)] for [v] other than [undefined],
    where [gap] is the text of [space] (empty for no indentation) and
    [indent] the indentation reached: the text, or [None] when it throws
    a [TypeError], which it does on a BigInt anywhere in [v].  Inside an
    array [undefined] is written [null]; inside an object a property
    whose value is [undefined] is left out, and the properties come in
    the order of [Object.keys]. *)
Fixpoint stringify (gap indent : string) (v : value) : option string :=
  match v with
  | VUndefined | VNull => Some "null"
  | VBool b => Some (if b then "true" else "false")
  | VNum n => Some (number_text n)
  | VStr s => Some (quote_json s)
  | VBigInt _ => None
  | VArr l => wrap gap indent "[" "]" <$> mapM (stringify gap (indent +:+ gap)) l
  | VObj o =>
      object_text gap indent (keys o)
        (map (fun p => (p.1, member_of p.2 (stringify gap (indent +:+ gap) p.2))) o)
  end.

(** [JSON.stringify(v)] *)
Definition serialize (v : value) : option string :=
  stringify EmptyString EmptyString v.

(** *** [toCSV] *)

(** [normalizeValue] on data.  [JSON.stringify] is tried on everything
    that is not [null], [undefined], a string, a number or a boolean;
    when it throws, the [catch] writes [String(value)]. *)
Definition normalizeValue (v : value) : string :=
  match v with
  | VNull | VUndefined => EmptyString
  | VStr s => s
  | VNum n => number_text n
  | VBool b => if b then "true" else "false"
  | VArr _ | VObj _ | VBigInt _ =>
      match serialize v with
      | Some text => text
      | None => to_string v
      end
  end.

(** The functions every plain object inherits from [Object.prototype]. *)
Definition Object_prototype_methods : list string :=
  ["constructor"; "hasOwnProperty"; "isPrototypeOf"; "propertyIsEnumerable";
   "toLocaleString"; "toString"; "valueOf";
   "__defineGetter__"; "__defineSetter__"; "__lookupGetter__"; "__lookupSetter__"].

(** What [row[header]] finds. *)
Inductive read : Type :=
| Data (v : value)     (* an own property, or [undefined] *)
| Method               (* a function inherited from [Object.prototype] *)
| Prototype.           (* [Object.prototype] itself, under [__proto__] *)

Definition row_read (row : obj) (header : string) : read :=
  match obj_get row header with
  | Some v => Data v
  | None =>
      if bool_decide (header ∈ Object_prototype_methods) then Method
      else if String.eqb header "__proto__" then Prototype
      else Data VUndefined
  end.

(** [normalizeValue(row[header])]: [None] is [undefined], which is what
    [JSON.stringify] answers for a function; [Object.prototype] has no
    property to write. *)
Definition normalize_read (r : read) : option string :=
  match r with
  | Data v => Some (normalizeValue v)
  | Method => None
  | Prototype => Some "{}"
  end.

(** [escapeCsv(normalizeValue(row[header]))]: [None] is the [TypeError]
    of [raw.includes] on [undefined]. *)
Definition csvCell (row : obj) (header : string) : option string :=
  escapeCsv <$> normalize_read (row_read row header).

(** One data row, [headers.map(...).join(",")]; [None] when a cell throws. *)
Definition csvRow (headers : list string) (row : obj) : option string :=
  String.concat (str1 comma) <$> mapM (csvCell row) headers.

(** [toCSV(data)]: the text, or [None] when it throws a [TypeError]. *)
Definition toCSV (data : list obj) : option string :=
  match data with
  | [] => Some EmptyString
  | first :: _ =>
      let headers := keys first in
      let csvHeaders := String.concat (str1 comma) headers in
      (fun csvRows => String.concat (str1 LF) (csvHeaders :: csvRows)) <$>
        mapM (csvRow headers) data
  end.

End Text.

(** *** Reading a row back

    The reader of one record after RFC 4180: a field is either quoted
    (anything between two double quotes, a double quote inside written
    twice) or plain (no comma, double quote or line break in it); fields
    are separated by commas.  [None] is a malformed record. *)

Inductive field_state : Type :=
| FieldStart      (* nothing of the field read yet *)
| Plain           (* inside a field that did not open with a quote *)
| Quoted          (* inside a quoted field *)
| QuoteSeen.      (* a quote read inside a quoted field *)

Fixpoint split_row (st : field_state) (cur : string) (s : string)
  : option (list string) :=
  match s with
  | EmptyString =>
      match st with
      | Quoted => None
      | _ => Some [cur]
      end
  | String c s' =>
      match st with
      | FieldStart | Plain =>
          if Ascii.eqb c comma then cons cur <$> split_row FieldStart EmptyString s'
          else if Ascii.eqb c dquote then
            match st with
            | FieldStart => split_row Quoted EmptyString s'
            | _ => None
            end
          else if Ascii.eqb c LF || Ascii.eqb c CR then None
          else split_row Plain (cur +:+ str1 c) s'
      | Quoted =>
          if Ascii.eqb c dquote then split_row QuoteSeen cur s'
          else split_row Quoted (cur +:+ str1 c) s'
      | QuoteSeen =>
          if Ascii.eqb c dquote then split_row Quoted (cur +:+ str1 dquote) s'
          else if Ascii.eqb c comma then cons cur <$> split_row FieldStart EmptyString s'
          else None
      end
  end.

Definition rfc4180_fields (record : string) : option (list string) :=
  split_row FieldStart EmptyString record.

End Csv.

(** ** The advanced-features module (index.ts, lines 80-556) *)

Module Advanced.
Import Js.

(** A thrown [Error] or the reason of a rejected promise. *)
Inductive exn : Type :=
| JsError (message : string).

(** How an [async] call ends: its promise fulfils or rejects. *)
Inductive completion (A : Type) : Type :=
| Normal (a : A)
| Throw (e : exn).
Arguments Normal {A} a.
Arguments Throw {A} e.

(** [QueryBuilderResponse<T>]: [{ data, meta }]. *)
Record QueryBuilderResponse : Type := mkResponse {
  data : list value;
  meta : obj
}.

(** *** 1. Query caching *)

(** Calls made on the [CacheStore] interface, in order. *)
Inductive store_call : Type :=
| CallGet (key : string)
| CallSet (key : string) (v : QueryBuilderResponse) (ttl : option Z).

(** [interface CacheStore].  Every method also receives [Date.now()] and
    may answer with a promise that rejects ([Throw]).  [get] answers the
    stored value, or nothing when the store answers a falsy value
    ([null]). *)
Class CacheStore (S : Type) : Type := {
  store_get : string -> Z -> S -> completion (option QueryBuilderResponse) * S;
  store_set : string -> QueryBuilderResponse -> option Z -> Z -> S -> completion unit * S;
  store_delete : string -> S -> completion unit * S;
  store_clear : S -> completion unit * S
}.

(** One entry of [InMemoryCache]'s private [Map]. *)
Record cache_item : Type := mkItem {
  item_value : QueryBuilderResponse;
  expiry : Z
}.

Module InMemoryCache.

Definition get (key : string) (now : Z) (cache : gmap string cache_item)
  : option QueryBuilderResponse * gmap string cache_item :=
  match cache !! key with
  | None => (None, cache)
  | Some item =>
      if (now >? expiry item)%Z then (None, delete key cache)
      else (Some (item_value item), cache)
  end.

(** [ttl = 300000]: five minutes unless the caller passes one. *)
Definition set (key : string) (v : QueryBuilderResponse) (ttl : option Z)
    (now : Z) (cache : gmap string cache_item) : gmap string cache_item :=
  <[key := {| item_value := v; expiry := (now + default 300000 ttl)%Z |}]> cache.

Definition delete (key : string) (cache : gmap string cache_item)
  : gmap string cache_item :=
  base.delete key cache.

Definition clear (_ : gmap string cache_item) : gmap string cache_item := ∅.

End InMemoryCache.

(** The default store never fails. *)
#[export] Instance InMemoryCache_store : CacheStore (gmap string cache_item) := {
  store_get key now cache :=
    (Normal (InMemoryCache.get key now cache).1, (InMemoryCache.get key now cache).2);
  store_set key v ttl now cache := (Normal tt, InMemoryCache.set key v ttl now cache);
  store_delete key cache := (Normal tt, InMemoryCache.delete key cache);
  store_clear cache := (Normal tt, InMemoryCache.clear cache)
}.

(** The engine's [TypeError]; its message is the engine's own. *)
Definition type_error : exn := JsError "TypeError".

(** *** Requests of the webhook *)

(** The second argument of [fetch].  [body] is [JSON.stringify] of the
    payload: its text, or [None] when it throws, in which case the
    argument is never completed. *)
Record RequestInit : Type := mkInit {
  method : string;
  headers : obj;
  body : option string
}.

(** How the promise [fetch] returns settles. *)
Inductive settled : Type :=
| Fulfilled
| Rejected (reason : exn).

Inductive log_entry : Type :=
| ConsoleError (label : string) (e : exn).

(** *** The module's state and its surroundings

    [db] is whatever the executor behind [queryBuilder] reads and writes;
    [executed] lists the options [queryBuilder] was called with;
    [cacheStore] and [presets] are the two module-level variables;
    [store_calls] lists the calls made on [cacheStore]; [outbox] lists the
    requests handed to [fetch]. *)
Record world (DB S : Type) : Type := mkWorld {
  now : Z;
  db : DB;
  executed : list obj;
  cacheStore : S;
  store_calls : list store_call;
  presets : gmap string obj;
  outbox : list (string * RequestInit);
  console : list log_entry
}.
Arguments mkWorld {DB S}.
Arguments now {DB S}.
Arguments db {DB S}.
Arguments executed {DB S}.
Arguments cacheStore {DB S}.
Arguments store_calls {DB S}.
Arguments presets {DB S}.
Arguments outbox {DB S}.
Arguments console {DB S}.

Section Decorators.
Context {DB S : Type} `{CacheStore S}.

(** [queryBuilder] of [./query-builder] is the executor boundary: it
    answers from [db], may change it, and takes [latency] milliseconds. *)
Variable execute : obj -> DB -> completion QueryBuilderResponse * DB.
Variable latency : obj -> DB -> Z.
(** [fetch] and [Date.prototype.toISOString] of the platform, and its
    [String(n)] for a number that is not a safe integer. *)
Variable fetch : string -> RequestInit -> settled.
Variable toISOString : Z -> string.
Variable unsafe_number_text : Z -> string.

Definition M (A : Type) : Type := world DB S -> completion A * world DB S.

Definition ret {A : Type} (a : A) : M A := fun w => (Normal a, w).
Definition throw {A : Type} (e : exn) : M A := fun w => (Throw e, w).
Definition bind {A B : Type} (m : M A) (k : A -> M B) : M B :=
  fun w =>
    match m w with
    | (Normal a, w') => k a w'
    | (Throw e, w') => (Throw e, w')
    end.

Notation "'let*' x ':=' m 'in' k" := (bind m (fun x => k))
  (at level 10, x name, m at level 100, k at level 200).

Definition queryBuilder (options : obj) : M QueryBuilderResponse :=
  fun w =>
    let '(r, d) := execute options (db w) in
    (r, mkWorld (now w + latency options (db w))%Z d (executed w ++ [options])
          (cacheStore w) (store_calls w) (presets w) (outbox w) (console w)).

(** [await cacheStore.get(key)] *)
Definition cache_get (key : string) : M (option QueryBuilderResponse) :=
  fun w =>
    let '(r, s) := store_get key (now w) (cacheStore w) in
    (r, mkWorld (now w) (db w) (executed w) s
          (store_calls w ++ [CallGet key]) (presets w) (outbox w) (console w)).

(** [await cacheStore.set(key, result, ttl)] *)
Definition cache_set (key : string) (v : QueryBuilderResponse) (ttl : option Z)
  : M unit :=
  fun w =>
    let '(r, s) := store_set key v ttl (now w) (cacheStore w) in
    (r, mkWorld (now w) (db w) (executed w) s
          (store_calls w ++ [CallSet key v ttl]) (presets w) (outbox w) (console w)).

Record CacheConfig : Type := mkCacheConfig {
  key : option string;
  ttl : option Z;
  enabled : option bool
}.

Definition cachedQueryBuilder (options : obj) (cacheConfig : option CacheConfig)
  : M QueryBuilderResponse :=
  let key := cacheConfig ≫= key in
  let ttl := cacheConfig ≫= ttl in
  let enabled := default true (cacheConfig ≫= enabled) in
  if negb enabled || negb (truthy (from_option VStr VUndefined key)) then
    queryBuilder options
  else
    let key := default EmptyString key in
    let* cached := cache_get key in
    match cached with
    | Some r => ret r
    | None =>
        let* result := queryBuilder options in
        let* _ := cache_set key result ttl in
        ret result
    end.

(** *** 3. Soft delete *)

Record SoftDeleteOptions : Type := mkSoftDelete {
  includeTrashed : option bool;
  trashedOnly : option bool;
  deletedAtField : option string
}.

Definition buildSoftDeleteFilter (options : option SoftDeleteOptions) : obj :=
  let includeTrashed := default false (options ≫= includeTrashed) in
  let trashedOnly := default false (options ≫= trashedOnly) in
  let deletedAtField := default "deletedAt" (options ≫= deletedAtField) in
  if includeTrashed then []
  else if trashedOnly then [(deletedAtField, VObj [("not", VNull)])]
  else [(deletedAtField, VObj [("equals", VNull)])].

(** [{ ...options, filters: { ...options.filters, ...extra } }] *)
Definition with_filters (options : obj) (extra : obj) : obj :=
  obj_set "filters" (VObj (spread2 (prop options "filters") (VObj extra)))
    (assign [] options).

Definition softDeleteQueryBuilder (options : obj)
    (softDeleteOptions : option SoftDeleteOptions) : M QueryBuilderResponse :=
  let softDeleteFilter := buildSoftDeleteFilter softDeleteOptions in
  queryBuilder (with_filters options softDeleteFilter).

(** *** 4. Multi-tenant support *)

(** [tenantField = "tenantId"] unless the caller names one. *)
Definition buildTenantFilter (tenantId : value) (tenantField : option string) : obj :=
  [(default "tenantId" tenantField, tenantId)].

(** The declared type makes [tenantId] a string; a caller that leaves it
    out passes [undefined]. *)
Record TenantConfig : Type := mkTenant {
  tenantId : option string;
  tenantField : option string
}.

Definition tenant_value (tenantConfig : TenantConfig) : value :=
  from_option VStr VUndefined (tenantId tenantConfig).

Definition tenant_field (tenantConfig : TenantConfig) : string :=
  default "tenantId" (tenantField tenantConfig).

Definition tenantQueryBuilder (options : obj) (tenantConfig : TenantConfig)
  : M QueryBuilderResponse :=
  let tenantId := tenant_value tenantConfig in
  let tenantField := tenant_field tenantConfig in
  let tenantFilter := buildTenantFilter tenantId (Some tenantField) in
  queryBuilder (with_filters options tenantFilter).

(** *** 7. Query presets *)

Definition saveQueryPreset (name : string) (options : obj) : M unit :=
  fun w =>
    (Normal tt, mkWorld (now w) (db w) (executed w) (cacheStore w) (store_calls w)
                  (<[name := options]> (presets w)) (outbox w) (console w)).

Definition not_found (name : string) : exn :=
  JsError ("Preset " +:+ Csv.str1 Csv.dquote +:+ name +:+ Csv.str1 Csv.dquote
           +:+ " not found").

Definition loadQueryPreset (name : string) : M obj :=
  fun w =>
    match presets w !! name with
    | None => (Throw (not_found name), w)
    | Some preset => (Normal preset, w)
    end.

(** [overrides] is optional: [{...preset, ...undefined}] copies [preset]. *)
Definition executePreset (name : string) (overrides : option obj)
  : M QueryBuilderResponse :=
  let* preset := loadQueryPreset name in
  queryBuilder (spread2 (VObj preset) (from_option VObj VUndefined overrides)).

Definition deletePreset (name : string) : M bool :=
  fun w =>
    (Normal (bool_decide (is_Some (presets w !! name))),
     mkWorld (now w) (db w) (executed w) (cacheStore w) (store_calls w)
       (delete name (presets w)) (outbox w) (console w)).

(** *** 8. Webhook *)

Record WebhookOptions : Type := mkWebhook {
  wh_headers : option obj;
  includeQuery : option bool
}.

Definition webhook_payload (options : obj) (webhookOptions : option WebhookOptions)
    (result : QueryBuilderResponse) (t : Z) : value :=
  VObj (assign
          [("data", VArr (data result)); ("meta", VObj (meta result));
           ("timestamp", VStr (toISOString t))]
          (own_props
             (if default false (webhookOptions ≫= includeQuery)
              then VObj [("query", VObj options)]
              else VUndefined))).

Definition webhook_request (options : obj) (webhookOptions : option WebhookOptions)
    (result : QueryBuilderResponse) (t : Z) : RequestInit :=
  {| method := "POST";
     headers :=
       assign [("Content-Type", VStr "application/json")]
         (own_props (from_option VObj VUndefined (webhookOptions ≫= wh_headers)));
     body := Csv.serialize unsafe_number_text
               (webhook_payload options webhookOptions result t) |}.

(** [fetch(url, init).catch(error => console.error("Webhook error:", error))]:
    the request goes out; a rejection ends in the handler, which logs it.
    The promise is not awaited, so nothing of it reaches the caller. *)
Definition post_and_forget (url : string) (init : RequestInit) : M unit :=
  fun w =>
    let logged :=
      match fetch url init with
      | Fulfilled => console w
      | Rejected error => console w ++ [ConsoleError "Webhook error:" error]
      end in
    (Normal tt, mkWorld (now w) (db w) (executed w) (cacheStore w) (store_calls w)
                  (presets w) (outbox w ++ [(url, init)]) logged).

(** The argument of [fetch] is built first: when [JSON.stringify] throws
    on the body, [fetch] is not called and the error, thrown outside the
    [catch], ends the call. *)
Definition queryWithWebhook (options : obj) (webhookUrl : string)
    (webhookOptions : option WebhookOptions) : M QueryBuilderResponse :=
  let* result := queryBuilder options in
  let* _ := (fun w =>
               let init := webhook_request options webhookOptions result (now w) in
               match body init with
               | None => throw type_error w
               | Some _ => post_and_forget webhookUrl init w
               end) in
  ret result.

End Decorators.

End Advanced.

(** ** Pagination helpers ([./pagination], exercised by the edge-case tests) *)

Module Pagination.
Import Js.

Record CursorPage : Type := mkCursorPage {
  page_data : list obj;
  hasMore : bool;
  nextCursor : value
}.

(** [rows[rows.length - 1]] *)
Definition last_row (rows : list obj) : option obj := last rows.

(** Modelled from the spec: [processCursorResults] of [pagination.ts], of
    which only the tests are at hand.  Section 4.2: if [rows.length > limit]
    then [hasMore = true], [data = rows[0..limit)] and
    [nextCursor = data[last][cursorField]]; else [hasMore = false],
    [data = rows] and [nextCursor] is [rows[last][cursorField]] when there
    is a row, [null] when there is none.  Where the first branch has no
    last row to read from ([limit < 1]) there is no result. *)
Definition processCursorResults (rows : list obj) (limit : Z) (cursorField : string)
  : option CursorPage :=
  if (Z.of_nat (length rows) >? limit)%Z then
    let data := take (Z.to_nat limit) rows in
    match last_row data with
    | Some r => Some (mkCursorPage data true (prop r cursorField))
    | None => None
    end
  else
    Some (mkCursorPage rows false
            match last_row rows with
            | Some r => prop r cursorField
            | None => VNull
            end).

(** Modelled from the spec: [calculateTotalPages] of [pagination.ts], of
    which only a test is at hand.  Section 4.2: [ceil(total/limit)], over
    the rationals. *)
Definition calculateTotalPages (total limit : Z) : Z :=
  Qceiling (inject_Z total / inject_Z limit).

End Pagination.

(** ** Filter combinators ([./filters], exercised by the edge-case tests) *)

Module Filters.
Import Js.

Definition is_empty (f : obj) : bool :=
  match f with
  | [] => true
  | _ => false
  end.

(** Modelled from the spec: [combineFilters] of [filters.ts], of which only
    the tests are at hand.  Section 4.1: no input yields no constraint (the
    empty object), one input yields that input unwrapped, two or more are
    wrapped in an AND node. *)
Definition combineFilters (filters : list obj) : obj :=
  match filters with
  | [] => []
  | [f] => f
  | _ => [("AND", VArr (map VObj filters))]
  end.

(** Modelled from the spec: [combineFiltersWithOr] of [filters.ts], of
    which only the tests are at hand.  Sections 3 and 4.1: it mirrors the
    AND rule over the non-empty inputs, and with none of them the result is
    absent ([undefined]) rather than an empty OR. *)
Definition combineFiltersWithOr (filters : list obj) : option obj :=
  match List.filter (fun f => negb (is_empty f)) filters with
  | [] => None
  | [f] => Some f
  | fs => Some [("OR", VArr (map VObj fs))]
  end.

End Filters.

(** ** The rest of the advanced-features module *)

Module AdvancedRest.
Import Js Advanced.

(** *** Conversions the module relies on *)

(** [a || b] *)
Definition or_else (a b : value) : value := if truthy a then a else b.

(** [v?.name] on plain data: [undefined] on [undefined] and [null], else
    the own property [name]; none of the prototypes of plain data defines
    a [name]. *)
Definition optional_name (v : value) : value :=
  match v with
  | VUndefined | VNull => VUndefined
  | _ => prop (own_props v) "name"
  end.

Section CacheKey.
Variable unsafe_number_text : Z -> string.

Local Abbreviation to_string := (Csv.to_string unsafe_number_text).

(** [parts.join(sep)]: [null] and [undefined] give the empty text. *)
Definition join (sep : string) (parts : list value) : string :=
  String.concat sep
    (map (fun e => match e with
                   | VUndefined | VNull => EmptyString
                   | _ => to_string e
                   end) parts).

(** *** 1. [generateCacheKey] *)

(** [JSON.stringify] throws on [filters] that hold a BigInt, and so does
    [generateCacheKey] then. *)
Definition generateCacheKey (options : obj) : completion string :=
  let filtersPart :=
    if truthy (prop options "filters")
    then (fun text => VStr ("filters:" +:+ text)) <$>
           Csv.serialize unsafe_number_text (prop options "filters")
    else Some VNull in
  match filtersPart with
  | None => Throw type_error
  | Some filtersPart =>
      let parts :=
        [ or_else (optional_name (prop options "model")) (VStr "unknown");
          VStr ("page:" +:+ to_string (or_else (prop options "page") (VNum 1)));
          VStr ("limit:" +:+ to_string (or_else (prop options "limit") (VNum 10)));
          if truthy (prop options "search")
          then VStr ("search:" +:+ to_string (prop options "search")) else VNull;
          filtersPart;
          VStr ("sort:" +:+ to_string (or_else (prop options "sortBy") (VStr "createdAt"))
                +:+ ":" +:+ to_string (or_else (prop options "sortOrder") (VStr "desc"))) ] in
      Normal (join ":" (List.filter truthy parts))
  end.

End CacheKey.

(** The options [generateCacheKey] reads. *)
Definition key_options : list string :=
  ["model"; "page"; "limit"; "search"; "filters"; "sortBy"; "sortOrder"].

(** *** 2. Performance monitoring *)

Record QueryMetrics : Type := mkMetrics {
  queryTime : Z;
  resultCount : value;
  isSlow : bool;
  timestamp : Z
}.

Definition SLOW_QUERY_THRESHOLD : Z := 1000.

(** One [console.warn] of a slow query: the text and the object beside it. *)
Record warning : Type := mkWarning {
  warn_message : string;
  warn_details : obj
}.

(** [QueryBuilderResponse<T> & { _metrics }] *)
Record MonitoredResponse : Type := mkMonitored {
  response : QueryBuilderResponse;
  _metrics : QueryMetrics
}.

(** [n.toFixed(2)] of a whole number of milliseconds. *)
Definition toFixed2 (n : Z) : string := string_of_Z n +:+ ".00".

Section Monitoring.
Context {DB S Obs : Type}.
Variable execute : obj -> DB -> completion QueryBuilderResponse * DB.
Variable latency : obj -> DB -> Z.

(** [MetricsCallback]: it receives [{ ...metrics, options }], may change
    what the observer owns ([Obs]) and may throw. *)
Definition MetricsCallback : Type :=
  QueryMetrics -> obj -> Obs -> completion unit * Obs.

(** The module variable [metricsCallback], the observer's own state, and
    the warnings written so far. *)
Record monitor : Type := mkMonitor {
  metricsCallback : option MetricsCallback;
  observer : Obs;
  warnings : list warning
}.


(** [performance.now()] is read off the same clock, in milliseconds. *)
Definition monitoredQueryBuilder (options : obj) (w : world DB S) (m : monitor)
  : completion MonitoredResponse * world DB S * monitor :=
  let start := now w in
  match queryBuilder execute latency options w with
  | (Throw e, w') => (Throw e, w', m)
  | (Normal result, w') =>
      let queryTime := (now w' - start)%Z in
      let isSlow := (queryTime >? SLOW_QUERY_THRESHOLD)%Z in
      let metrics := mkMetrics queryTime (prop (meta result) "total") isSlow (now w') in
      let warned :=
        if isSlow then
          warnings m ++
          [mkWarning ("⚠️ Slow query detected: " +:+ toFixed2 queryTime +:+ "ms")
             [("model", optional_name (prop options "model"));
              ("page", prop options "page");
              ("filters", prop options "filters")]]
        else warnings m in
      match metricsCallback m with
      | None =>
          (Normal (mkMonitored result metrics), w',
           mkMonitor None (observer m) warned)
      | Some callback =>
          match callback metrics options (observer m) with
          | (Normal _, obs) =>
              (Normal (mkMonitored result metrics), w',
               mkMonitor (Some callback) obs warned)
          | (Throw e, obs) =>
              (Throw e, w', mkMonitor (Some callback) obs warned)
          end
      end
  end.

End Monitoring.

(** *** 6. Query and export *)

(** The rows of an answer when they are all plain objects. *)
Definition plain_rows (data : list value) : option (list obj) :=
  mapM (fun row => match row with
                   | VObj o => Some o
                   | _ => None
                   end) data.

(** [{ ...options, limit: maxRows }], [maxRows = 10000] by default. *)
Definition export_options (options : obj) (maxRows : option Z) : obj :=
  obj_set "limit" (VNum (default 10000 maxRows)) (assign [] options).

Section Exporting.
Context {DB S : Type}.
Variable execute : obj -> DB -> completion QueryBuilderResponse * DB.
Variable latency : obj -> DB -> Z.
Variable unsafe_number_text : Z -> string.
(** [toCSV] on an answer in which some row is not a plain object (an
    array, a string, a number, [null], ...).  What [row[header]] finds on
    such a row depends on the prototypes of the platform; it is left
    open. *)
Variable toCSV_other : list value -> completion string.

(** [toCSV(result.data)] *)
Definition toCSV_data (data : list value) : completion string :=
  match plain_rows data with
  | Some rows =>
      match Csv.toCSV unsafe_number_text rows with
      | Some text => Normal text
      | None => Throw type_error
      end
  | None => toCSV_other data
  end.

Definition queryAndExportCSV (options : obj) (maxRows : option Z)
    (w : world DB S) : completion string * world DB S :=
  match queryBuilder execute latency (export_options options maxRows) w with
  | (Throw e, w') => (Throw e, w')
  | (Normal result, w') => (toCSV_data (data result), w')
  end.

(** [JSON.stringify(data, null, pretty ? 2 : 0)], [pretty = true] by
    default: indented by two spaces, or not at all.  It throws when the
    rows hold a BigInt. *)
Definition toJSON (data : list value) (pretty : option bool) : completion string :=
  let gap := if default true pretty then "  " else EmptyString in
  match Csv.stringify unsafe_number_text gap EmptyString (VArr data) with
  | Some text => Normal text
  | None => Throw type_error
  end.

Definition queryAndExportJSON (options : obj) (maxRows : option Z)
    (pretty : option bool) (w : world DB S) : completion string * world DB S :=
  match queryBuilder execute latency (export_options options maxRows) w with
  | (Throw e, w') => (Throw e, w')
  | (Normal result, w') => (toJSON (data result) pretty, w')
  end.

End Exporting.

(** *** 9. [groupByQuery] *)

Section GroupBy.
Context {DB : Type}.
(** [model.groupBy(args)]: the executor's group-by capability, whatever
    [model] is. *)
Variable groupBy_call : value -> obj -> DB -> completion value * DB.

(** The argument built for [model.groupBy]:
    [{ by: groupBy, ...aggregations, where: filters, having }]. *)
Definition groupBy_args (options : obj) : obj :=
  let groupBy := prop options "groupBy" in
  let aggregations :=
    match prop options "aggregations" with
    | VUndefined => VObj []
    | v => v
    end in
  let filters := prop options "filters" in
  let having := prop options "having" in
  obj_set "having" having
    (obj_set "where" filters
       (assign [("by", groupBy)] (own_props aggregations))).

Definition groupByQuery (options : obj) (d : DB) : completion value * DB :=
  groupBy_call (prop options "model") (groupBy_args options) d.

End GroupBy.

End AdvancedRest.

(** ** Facts about objects *)

Module JsFacts.
Import Js.

Lemma has_key_obj_get (o : obj) k : has_key o k = false ↔ obj_get o k = None.
Proof.
  induction o as [|[k' v] o IH]; [done|].
  cbn [has_key existsb obj_get fst] in *. rewrite orb_false_iff, IH.
  destruct (obj_get o k); destruct (String.eqb k k'); intuition congruence.
Qed.

Lemma obj_get_app (o1 o2 : obj) k :
  obj_get (o1 ++ o2) k
  = match obj_get o2 k with
    | Some v => Some v
    | None => obj_get o1 k
    end.
Proof.
  induction o1 as [|[k' v] o1 IH]; cbn [app obj_get].
  - by destruct (obj_get o2 k).
  - rewrite IH. by destruct (obj_get o2 k).
Qed.

Lemma obj_get_replace (o : obj) k v q :
  obj_get (map (fun kv => if String.eqb k (fst kv) then (k, v) else kv) o) q
  = if String.eqb q k then (if has_key o k then Some v else None) else obj_get o q.
Proof.
  induction o as [|[k' v'] o IH]; cbn [map obj_get has_key existsb fst].
  - by destruct (String.eqb q k).
  - rewrite IH. fold (has_key o k).
    destruct (String.eqb q k) eqn:Eq.
    + apply String.eqb_eq in Eq. subst q.
      destruct (String.eqb k k') eqn:Ek; cbn [orb fst].
      * rewrite String.eqb_refl. by destruct (has_key o k).
      * rewrite Ek. by destruct (has_key o k).
    + destruct (String.eqb k k') eqn:Ek; cbn [fst]; [|done].
      apply String.eqb_eq in Ek. subst k'. by rewrite Eq.
Qed.

Lemma obj_get_set (o : obj) k v q :
  obj_get (obj_set k v o) q = if String.eqb q k then Some v else obj_get o q.
Proof.
  unfold obj_set. destruct (has_key o k) eqn:Hk.
  - by rewrite obj_get_replace, Hk.
  - rewrite obj_get_app. cbn [obj_get].
    destruct (String.eqb q k) eqn:Eq; [done|]. by destruct (obj_get o q).
Qed.

Lemma obj_get_set_eq (o : obj) k v : obj_get (obj_set k v o) k = Some v.
Proof. by rewrite obj_get_set, String.eqb_refl. Qed.

Lemma obj_get_set_ne (o : obj) k q v :
  q ≠ k → obj_get (obj_set k v o) q = obj_get o q.
Proof. intros Hne. rewrite obj_get_set. by apply String.eqb_neq in Hne as ->. Qed.

(** Spreading: the source wins name by name, the target keeps the rest. *)
Lemma obj_get_assign (source : obj) : ∀ (target : obj) k,
  obj_get (assign target source) k
  = match obj_get source k with
    | Some v => Some v
    | None => obj_get target k
    end.
Proof.
  induction source as [|[k' v'] source IH]; intros target k; [done|].
  change (assign target ((k', v') :: source))
    with (assign (obj_set k' v' target) source).
  rewrite IH, obj_get_set. cbn [obj_get].
  by destruct (obj_get source k), (String.eqb k k').
Qed.

(** A copy [{...o}] reads like [o]. *)
Lemma obj_get_copy (o : obj) k : obj_get (assign [] o) k = obj_get o k.
Proof. rewrite obj_get_assign. by destruct (obj_get o k). Qed.

Lemma obj_get_spread2 (a b : value) k :
  obj_get (spread2 a b) k
  = match obj_get (own_props b) k with
    | Some v => Some v
    | None => obj_get (own_props a) k
    end.
Proof. unfold spread2. by rewrite obj_get_assign, obj_get_copy. Qed.

(** *** The names [Object.keys] lists *)

Lemma obj_get_is_Some (o : obj) k : is_Some (obj_get o k) ↔ k ∈ map fst o.
Proof.
  induction o as [|[k' v] o IH]; cbn [obj_get map fst].
  - split; [by intros [? ?] | intros Hin; by apply elem_of_nil in Hin].
  - rewrite elem_of_cons, <- IH.
    destruct (obj_get o k) as [v'|]; [split; eauto|].
    destruct (String.eqb k k') eqn:E.
    + apply String.eqb_eq in E. split; eauto.
    + apply String.eqb_neq in E. split; [by intros [? ?]|].
      intros [?|[? ?]]; done.
Qed.

Lemma insert_index_perm x l : insert_index x l ≡ₚ x :: l.
Proof.
  induction l as [|y l IH]; cbn [insert_index]; [done|].
  destruct (fst x <=? fst y)%N; [done|].
  rewrite IH. apply Permutation_swap.
Qed.

Lemma sort_indices_perm l : sort_indices l ≡ₚ l.
Proof.
  induction l as [|x l IH]; [done|].
  cbn [sort_indices foldr]. fold (sort_indices l).
  by rewrite insert_index_perm, IH.
Qed.

Lemma elem_of_List_filter {A : Type} (f : A → bool) (l : list A) x :
  x ∈ List.filter f l ↔ x ∈ l ∧ f x = true.
Proof. rewrite !list_elem_of_In. apply List.filter_In. Qed.

Lemma own_key_order_elem (names : list string) k :
  k ∈ own_key_order names ↔ k ∈ names.
Proof.
  unfold own_key_order. rewrite elem_of_app, sort_indices_perm.
  rewrite list_elem_of_fmap, elem_of_List_filter.
  split.
  - intros [([n k'] & -> & Hin)|[Hin _]]; [|done].
    apply list_elem_of_omap in Hin as (k0 & Hk0 & Heq).
    destruct (array_index k0); [|done]. cbn in Heq. by injection Heq as _ ->.
  - intros Hin. destruct (array_index k) as [n|] eqn:Hidx.
    + left. exists (n, k). split; [done|].
      apply list_elem_of_omap. exists k. by rewrite Hidx.
    + right. split; [done|]. rewrite bool_decide_eq_false_2; [done|].
      by intros [? ?].
Qed.

Lemma own_key_order_length (names : list string) :
  length (own_key_order names) = length names.
Proof.
  unfold own_key_order.
  rewrite length_app, length_map, (Permutation_length (sort_indices_perm _)).
  induction names as [|k names IH]; [done|].
  cbn [omap list_omap List.filter length].
  destruct (array_index k) as [n|]; cbn [fmap option_fmap option_map length];
    [rewrite bool_decide_eq_true_2 by eauto
    |rewrite bool_decide_eq_false_2 by (by intros [? ?])];
    cbn [negb length]; lia.
Qed.

(** [Object.keys] lists exactly the own properties. *)
Lemma elem_of_keys (o : obj) k : k ∈ keys o ↔ is_Some (obj_get o k).
Proof.
  unfold keys. by rewrite own_key_order_elem, <- obj_get_is_Some, obj_get_copy.
Qed.

End JsFacts.

(** ** Facts about the CSV export *)

Module CsvFacts.
Import Js JsFacts Csv.

Definition chars_of (s : string) : list ascii := list_ascii_of_string s.

(** A character that forces quoting: comma, double quote, or a line break
    (line feed, carriage return). *)
Definition special (c : ascii) : Prop :=
  c = comma ∨ c = dquote ∨ c = LF ∨ c = CR.

Lemma prefix_str1 c s :
  String.prefix (str1 c) s =
  match s with
  | String a _ => Ascii.eqb c a
  | EmptyString => false
  end.
Proof.
  destruct s as [|a s]; simpl; [done|].
  destruct (ascii_dec c a) as [->|Hne].
  - rewrite Ascii.eqb_refl. by destruct s.
  - symmetry. by apply Ascii.eqb_neq.
Qed.

Lemma includes_str1 s c : includes s (str1 c) = true ↔ c ∈ chars_of s.
Proof.
  induction s as [|a s IH].
  - simpl. split; [done | intros Hin; inversion Hin].
  - cbn [includes chars_of list_ascii_of_string].
    rewrite prefix_str1, orb_true_iff, IH, Ascii.eqb_eq, elem_of_cons.
    unfold chars_of. tauto.
Qed.

Lemma needsQuotes_spec raw :
  needsQuotes raw = true ↔ ∃ c, c ∈ chars_of raw ∧ special c.
Proof.
  unfold needsQuotes, special.
  rewrite !orb_true_iff, !includes_str1. split.
  - intros [[[?|?]|?]|?]; eauto 10.
  - intros (c & Hin & [->| [->| [->| ->]]]); tauto.
Qed.

Lemma replace_all_absent c by_ s :
  c ∉ chars_of s → replace_all c by_ s = s.
Proof.
  induction s as [|a s IH]; [done|].
  cbn [chars_of list_ascii_of_string replace_all].
  intros Hn. apply not_elem_of_cons in Hn as [Hne Hn].
  destruct (Ascii.eqb a c) eqn:E.
  - apply Ascii.eqb_eq in E. congruence.
  - f_equal. by apply IH.
Qed.

Lemma append_cons a (s t : string) : String a s +:+ t = String a (s +:+ t).
Proof. reflexivity. Qed.

Lemma append_nil (t : string) : EmptyString +:+ t = t.
Proof. reflexivity. Qed.

Ltac unfold_append := repeat (rewrite append_cons || rewrite append_nil).

Lemma app_empty_r (s : string) : s +:+ EmptyString = s.
Proof. induction s; unfold_append; congruence. Qed.

Lemma app_snoc (cur : string) a s : (cur +:+ str1 a) +:+ s = cur +:+ String a s.
Proof.
  induction cur as [|c cur IH]; unfold_append; [by unfold str1 | by rewrite IH].
Qed.


Lemma not_special_eqb a :
  ¬ special a →
  Ascii.eqb a comma = false ∧ Ascii.eqb a dquote = false
  ∧ Ascii.eqb a LF = false ∧ Ascii.eqb a CR = false.
Proof.
  unfold special. rewrite <- !Ascii.eqb_eq.
  intros Ha. repeat split; apply not_true_is_false; tauto.
Qed.

(** The reader on a plain run of characters. *)
Lemma split_row_plain s : ∀ st cur tail,
  (st = FieldStart ∨ st = Plain) →
  (∀ c, c ∈ chars_of s → ¬ special c) →
  (tail = EmptyString ∨ ∃ rest, tail = String comma rest) →
  split_row st cur (s +:+ tail) = split_row Plain (cur +:+ s) tail.
Proof.
  induction s as [|a s IH]; intros st cur tail Hst Hs Htail.
  - rewrite app_empty_r, append_nil.
    destruct Htail as [->|[rest ->]]; destruct Hst as [->| ->]; done.
  - destruct (not_special_eqb a) as (E1 & E2 & E3 & E4); [apply Hs; left|].
    transitivity (split_row Plain (cur +:+ str1 a) (s +:+ tail)).
    { destruct Hst as [->| ->]; rewrite append_cons; cbn [split_row];
        by rewrite E1, E2, E3, E4. }
    rewrite IH; [by rewrite app_snoc | by right | | done].
    intros c Hc. apply Hs. by right.
Qed.

(** The reader inside a quoted field, up to the closing quote. *)
Lemma split_row_quoted s : ∀ cur tail,
  split_row Quoted cur
    (replace_all dquote (String dquote (str1 dquote)) s +:+ String dquote tail)
  = split_row QuoteSeen (cur +:+ s) tail.
Proof.
  induction s as [|a s IH]; intros cur tail.
  - rewrite app_empty_r. cbn [replace_all]. rewrite append_nil. cbn [split_row].
    by rewrite Ascii.eqb_refl.
  - cbn [replace_all]. destruct (Ascii.eqb a dquote) eqn:E.
    + apply Ascii.eqb_eq in E. subst a.
      unfold str1 at 1. unfold_append. cbn [split_row].
      rewrite !Ascii.eqb_refl. by rewrite IH, app_snoc.
    + rewrite append_cons. cbn [split_row]. rewrite E.
      by rewrite IH, app_snoc.
Qed.

Lemma split_row_wrapped s cur tail :
  split_row FieldStart cur
    (String dquote (replace_all dquote (String dquote (str1 dquote)) s +:+ str1 dquote)
     +:+ tail)
  = split_row QuoteSeen s tail.
Proof.
  rewrite append_cons. cbn [split_row]. rewrite Ascii.eqb_refl.
  replace (Ascii.eqb dquote comma) with false by done.
  by rewrite app_snoc, split_row_quoted, append_nil.
Qed.

(** One emitted cell, followed by the end of the row or by a comma. *)
Lemma split_row_cell_last raw :
  split_row FieldStart EmptyString (escapeCsv raw) = Some [raw].
Proof.
  unfold escapeCsv. destruct (needsQuotes raw) eqn:E.
  - rewrite <- (app_empty_r (String dquote _)). by rewrite split_row_wrapped.
  - assert (∀ c, c ∈ chars_of raw → ¬ special c) as Hs.
    { intros c Hc Hsp. apply not_true_iff_false in E. apply E.
      apply needsQuotes_spec. eauto. }
    rewrite replace_all_absent.
    2:{ intros Hin. apply (Hs _ Hin). right; by left. }
    rewrite <- (app_empty_r raw) at 1.
    rewrite split_row_plain; [done | by left | done | by left].
Qed.

Lemma split_row_cell_more raw rest :
  split_row FieldStart EmptyString (escapeCsv raw +:+ String comma rest)
  = cons raw <$> split_row FieldStart EmptyString rest.
Proof.
  unfold escapeCsv. destruct (needsQuotes raw) eqn:E.
  - rewrite split_row_wrapped. cbn [split_row]. rewrite Ascii.eqb_refl.
    by replace (Ascii.eqb comma dquote) with false by done.
  - assert (∀ c, c ∈ chars_of raw → ¬ special c) as Hs.
    { intros c Hc Hsp. apply not_true_iff_false in E. apply E.
      apply needsQuotes_spec. eauto. }
    rewrite replace_all_absent.
    2:{ intros Hin. apply (Hs _ Hin). right; by left. }
    rewrite split_row_plain; [ | by left | done | right; eauto].
    rewrite append_nil. cbn [split_row]. by rewrite Ascii.eqb_refl.
Qed.

(** Reading back a whole emitted row. *)
Lemma split_row_cells (cells : list string) :
  cells ≠ [] →
  rfc4180_fields (String.concat (str1 comma) (map escapeCsv cells)) = Some cells.
Proof.
  unfold rfc4180_fields.
  induction cells as [|raw cells IH]; [done|]. intros _.
  destruct cells as [|raw' cells].
  - apply split_row_cell_last.
  - cbn [map String.concat] in *. unfold str1 at 1. unfold_append.
    rewrite split_row_cell_more, IH; done.
Qed.

Section Text.
Variable unsafe_number_text : Z → string.

Local Abbreviation stringify := (Csv.stringify unsafe_number_text).
Local Abbreviation serialize := (Csv.serialize unsafe_number_text).
Local Abbreviation to_string := (Csv.to_string unsafe_number_text).
Local Abbreviation normalizeValue := (Csv.normalizeValue unsafe_number_text).
Local Abbreviation normalize_read := (Csv.normalize_read unsafe_number_text).
Local Abbreviation csvCell := (Csv.csvCell unsafe_number_text).
Local Abbreviation csvRow := (Csv.csvRow unsafe_number_text).
Local Abbreviation toCSV := (Csv.toCSV unsafe_number_text).

(** *** Where [JSON.stringify] throws *)

(** Induction on a value, through its elements and properties. *)
Lemma value_nested_ind (P : value → Prop) :
  P VUndefined → P VNull → (∀ b, P (VBool b)) → (∀ n, P (VNum n)) →
  (∀ s, P (VStr s)) →
  (∀ l, Forall P l → P (VArr l)) →
  (∀ o, Forall (fun p => P p.2) o → P (VObj o)) →
  (∀ n, P (VBigInt n)) →
  ∀ v, P v.
Proof.
  intros Hu Hn Hb Hnum Hs Harr Hobj Hbig. fix IH 1.
  intros [| |b|n|s|l|o|n];
    [exact Hu|exact Hn|exact (Hb b)|exact (Hnum n)|exact (Hs s)| | |exact (Hbig n)].
  - apply Harr. induction l as [|e l IHl]; constructor; [apply IH|exact IHl].
  - apply Hobj. induction o as [|[k v] o IHo]; constructor; [apply IH|exact IHo].
Qed.

Lemma assoc_last_obj_get {A : Type} (g : value → A) (o : obj) k :
  assoc_last (map (fun p => (p.1, g p.2)) o) k = g <$> obj_get o k.
Proof.
  induction o as [|[k' v] o IH]; [done|]. cbn [map assoc_last obj_get fst snd].
  rewrite IH. destruct (obj_get o k); [done|]. cbn. by destruct (String.eqb k k').
Qed.

Lemma member_of_throws (v : value) (text text' : option string) :
  (text = None ↔ text' = None) →
  (member_of v text = Throws ↔ member_of v text' = Throws).
Proof.
  intros Hiff. destruct text as [t|], text' as [t'|], v; cbn;
    try done; try (destruct Hiff as [H1 H2]; split; intros; try done;
                   (by specialize (H1 eq_refl) || by specialize (H2 eq_refl))).
Qed.

Lemma mapM_None_ext {A B C : Type} (f : A → option B) (g : A → option C) (l : list A) :
  Forall (fun x => f x = None ↔ g x = None) l →
  (mapM f l = None ↔ mapM g l = None).
Proof.
  intros Hall. rewrite !mapM_None, !Exists_exists.
  rewrite Forall_forall in Hall.
  split; intros (x & Hx & Hnone); exists x; (split; [done|]); by apply (Hall x Hx).
Qed.

(** Whether [JSON.stringify] throws does not depend on the indentation. *)
Lemma stringify_throws_alike (v : value) (gap indent gap' indent' : string) :
  stringify gap indent v = None ↔ stringify gap' indent' v = None.
Proof.
  revert indent indent'.
  induction v as [| |b|n|s|l IH|o IH|n] using value_nested_ind;
    intros indent indent'; try done.
  - cbn [Csv.stringify]. rewrite !fmap_None. apply mapM_None_ext.
    eapply Forall_impl; [exact IH|]. intros e He. apply He.
  - cbn [Csv.stringify]. unfold object_text. rewrite !fmap_None.
    apply mapM_None_ext, Forall_forall. intros k _.
    rewrite (assoc_last_obj_get
               (fun v => member_of v (stringify gap (indent +:+ gap) v))),
      (assoc_last_obj_get
         (fun v => member_of v (stringify gap' (indent' +:+ gap') v))).
    destruct (obj_get o k) as [v|] eqn:Hget; [|done]. cbn.
    assert (member_of v (stringify gap (indent +:+ gap) v) = Throws
            ↔ member_of v (stringify gap' (indent' +:+ gap') v) = Throws) as Hm.
    { apply member_of_throws.
      assert (∃ k', (k', v) ∈ o) as [k' Hin].
      { clear IH. induction o as [|[k1 v1] o IHo]; [done|].
        cbn [obj_get] in Hget. destruct (obj_get o k) as [v2|] eqn:Ho.
        - destruct (IHo Hget) as [k' Hk']. exists k'. by right.
        - destruct (String.eqb k k1); [|done]. injection Hget as ->.
          exists k1. by left. }
      rewrite Forall_forall in IH. apply (IH _ Hin). }
    destruct (member_of v (stringify gap (indent +:+ gap) v)) eqn:E1,
      (member_of v (stringify gap' (indent' +:+ gap') v)) eqn:E2;
      try done; destruct Hm as [H1 H2];
      (by specialize (H1 eq_refl) || by specialize (H2 eq_refl)).
Qed.

(** An array has no text when one of its elements has none. *)
Lemma stringify_array_throws (gap indent : string) (l : list value) (e : value) :
  e ∈ l → serialize e = None → stringify gap indent (VArr l) = None.
Proof.
  intros He Hnone. cbn [Csv.stringify]. apply fmap_None, mapM_None_2, Exists_exists.
  exists e. split; [done|].
  by apply (stringify_throws_alike e EmptyString EmptyString).
Qed.

(** An object has no text when one of its properties has none. *)
Lemma stringify_object_throws (gap indent : string) (o : obj) k (v : value) :
  obj_get o k = Some v → serialize v = None → stringify gap indent (VObj o) = None.
Proof.
  intros Hget Hnone. cbn [Csv.stringify]. unfold object_text.
  apply fmap_None, mapM_None_2, Exists_exists. exists k. split.
  { apply elem_of_keys. by rewrite Hget. }
  rewrite (assoc_last_obj_get
             (fun v => member_of v (stringify gap (indent +:+ gap) v))).
  rewrite Hget. cbn.
  pose proof Hnone as Hnone'.
  apply (stringify_throws_alike v EmptyString EmptyString gap (indent +:+ gap))
    in Hnone' as ->.
  by destruct v.
Qed.

(** A list of rows has no text when a row holds a BigInt. *)
Lemma stringify_rows_throw (gap indent : string) (rows : list value) (row : obj)
    k (n : Z) :
  VObj row ∈ rows → obj_get row k = Some (VBigInt n) →
  stringify gap indent (VArr rows) = None.
Proof.
  intros Hrow Hget. apply (stringify_array_throws _ _ _ _ Hrow).
  by apply (stringify_object_throws _ _ _ _ _ Hget).
Qed.

(** *** Where [toCSV] throws *)






End Text.



End CsvFacts.

(** ** Facts about the decorators *)

Module AdvancedFacts.
Import Js JsFacts Advanced.

(** A one-row answer, an executor that always gives it, and an idle world,
    for the concrete runs below. *)
Definition demo_response : QueryBuilderResponse :=
  mkResponse [VObj [("id", VNum 1)]] [("total", VNum 1)].

Definition demo_execute (_ : obj) (_ : unit) : completion QueryBuilderResponse * unit :=
  (Normal demo_response, tt).

Definition demo_latency (_ : obj) (_ : unit) : Z := 5.

Definition demo_world : world unit (gmap string cache_item) :=
  mkWorld 1000 tt [] ∅ [] ∅ [] [].

(** The same world with one entry in the cache, good until [2000]. *)
Definition cached_world : world unit (gmap string cache_item) :=
  mkWorld 1000 tt [] {["users" := mkItem demo_response 2000]} [] ∅ [] [].

(** The configuration turns the cache on and names the key [k]. *)
Definition key_given (cfg : option CacheConfig) (k : string) : Prop :=
  ∃ c, cfg = Some c ∧ enabled c ≠ Some false ∧ key c = Some k ∧ k ≠ EmptyString.

(** The cache is switched off, or no key is given (an empty key counts as
    none: [!key]). *)
Definition cache_bypassed (cfg : option CacheConfig) : Prop :=
  cfg = None
  ∨ ∃ c, cfg = Some c
         ∧ (enabled c = Some false ∨ key c = None ∨ key c = Some EmptyString).

Section Decorators.
Context {DB S : Type} `{CacheStore S}.
Variable execute : obj → DB → completion QueryBuilderResponse * DB.
Variable latency : obj → DB → Z.
Variable fetch : string → RequestInit → settled.
Variable toISOString : Z → string.
Variable unsafe_number_text : Z → string.

Local Abbreviation queryBuilder := (Advanced.queryBuilder execute latency).
Local Abbreviation tenantQueryBuilder := (Advanced.tenantQueryBuilder execute latency).
Local Abbreviation softDeleteQueryBuilder := (Advanced.softDeleteQueryBuilder execute latency).
Local Abbreviation executePreset := (Advanced.executePreset execute latency).
Local Abbreviation cachedQueryBuilder := (Advanced.cachedQueryBuilder execute latency).
Local Abbreviation queryWithWebhook :=
  (Advanced.queryWithWebhook execute latency fetch toISOString unsafe_number_text).
Local Abbreviation webhook_request :=
  (Advanced.webhook_request toISOString unsafe_number_text).

Lemma with_filters_filters (options extra : obj) :
  obj_get (with_filters options extra) "filters"
  = Some (VObj (spread2 (prop options "filters") (VObj extra))).
Proof. unfold with_filters. apply obj_get_set_eq. Qed.

Lemma with_filters_other (options extra : obj) k :
  k ≠ "filters" → obj_get (with_filters options extra) k = obj_get options k.
Proof.
  intros Hne. unfold with_filters.
  by rewrite obj_get_set_ne, obj_get_copy.
Qed.

(** What [queryBuilder] touches: the clock, the database and the trace. *)
Lemma queryBuilder_frame (options : obj) (w : world DB S) :
  executed (queryBuilder options w).2 = executed w ++ [options]
  ∧ cacheStore (queryBuilder options w).2 = cacheStore w
  ∧ store_calls (queryBuilder options w).2 = store_calls w
  ∧ presets (queryBuilder options w).2 = presets w
  ∧ outbox (queryBuilder options w).2 = outbox w
  ∧ console (queryBuilder options w).2 = console w.
Proof. unfold Advanced.queryBuilder. by destruct (execute options (db w)). Qed.

Lemma tenant_filters_lookup (options : obj) (cfg : TenantConfig) k :
  obj_get (spread2 (prop options "filters")
             (VObj (buildTenantFilter (tenant_value cfg) (Some (tenant_field cfg))))) k
  = if String.eqb k (tenant_field cfg) then Some (tenant_value cfg)
    else obj_get (own_props (prop options "filters")) k.
Proof.
  rewrite obj_get_spread2. unfold buildTenantFilter.
  cbn [own_props from_option id obj_get].
  destruct (String.eqb k (tenant_field cfg)); [done|].
  by destruct (obj_get _ k).
Qed.

(** C1, as the code has it.  [tenantQueryBuilder] checks nothing: with or
    without a [tenantId] it runs the base query once and ends as that
    query ends.  The options it passes are the caller's, except that
    [filters] maps the tenant field (default [tenantId]) to the given id,
    [undefined] when the id was left out, and keeps the caller's other
    filters. *)
Theorem tenantQueryBuilder_runs_base_query
    (options : obj) (cfg : TenantConfig) (w : world DB S) :
  ∃ passed f,
    tenantQueryBuilder options cfg w = queryBuilder passed w
    ∧ (∀ k, k ≠ "filters" → obj_get passed k = obj_get options k)
    ∧ obj_get passed "filters" = Some (VObj f)
    ∧ obj_get f (default "tenantId" (tenantField cfg))
      = Some (match tenantId cfg with
              | Some id => VStr id
              | None => VUndefined
              end)
    ∧ (∀ k, k ≠ default "tenantId" (tenantField cfg) →
         obj_get f k = obj_get (own_props (prop options "filters")) k).
Proof.
  eexists _, _. split; [reflexivity|].
  split; [intros k Hk; by apply with_filters_other|].
  split; [apply with_filters_filters|].
  split.
  - rewrite tenant_filters_lookup. unfold tenant_field.
    rewrite String.eqb_refl. unfold tenant_value. by destruct (tenantId cfg).
  - intros k Hk. rewrite tenant_filters_lookup. unfold tenant_field.
    by apply String.eqb_neq in Hk as ->.
Qed.

(** C9.  Whatever the caller's filters say about the tenant field, the
    options that reach [queryBuilder] bind it to the configured id: the
    tenant filter is spread last.  The field is [tenantField], [tenantId]
    when none is named. *)
Theorem tenant_filter_overrides_caller
    (options : obj) (cfg : TenantConfig) (w : world DB S) :
  ∃ passed f,
    executed (tenantQueryBuilder options cfg w).2 = executed w ++ [passed]
    ∧ obj_get passed "filters" = Some (VObj f)
    ∧ obj_get f (match tenantField cfg with
                 | Some field => field
                 | None => "tenantId"
                 end)
      = Some (match tenantId cfg with
              | Some id => VStr id
              | None => VUndefined
              end)
    ∧ (∀ k, k ≠ "filters" → obj_get passed k = obj_get options k).
Proof.
  eexists _, _. split.
  { unfold Advanced.tenantQueryBuilder. apply queryBuilder_frame. }
  split; [apply with_filters_filters|].
  split; [|intros k Hk; by apply with_filters_other].
  rewrite tenant_filters_lookup. unfold tenant_field, tenant_value.
  destruct (tenantField cfg), (tenantId cfg); cbn [default from_option id];
    by rewrite String.eqb_refl.
Qed.

(** *** Soft delete *)

Lemma soft_filters_lookup (options : obj) (field : string) (cond : value) k :
  obj_get (spread2 (prop options "filters") (VObj [(field, cond)])) k
  = if String.eqb k field then Some cond
    else obj_get (own_props (prop options "filters")) k.
Proof.
  rewrite obj_get_spread2. cbn [own_props obj_get].
  destruct (String.eqb k field); [done|]. by destruct (obj_get _ k).
Qed.

(** C4.  [buildSoftDeleteFilter] gives no filter when [includeTrashed] is
    set, whatever [trashedOnly] says; else [{field: {not: null}}] when
    [trashedOnly] is set; else [{field: {equals: null}}]; the field is
    [deletedAt] unless named.  [softDeleteQueryBuilder] runs the base query
    with that filter spread over the caller's filters. *)
Theorem buildSoftDeleteFilter_cases (sd : option SoftDeleteOptions) :
  let field := default "deletedAt" (sd ≫= deletedAtField) in
  (sd ≫= includeTrashed = Some true → buildSoftDeleteFilter sd = [])
  ∧ (sd ≫= includeTrashed ≠ Some true → sd ≫= trashedOnly = Some true →
       buildSoftDeleteFilter sd = [(field, VObj [("not", VNull)])])
  ∧ (sd ≫= includeTrashed ≠ Some true → sd ≫= trashedOnly ≠ Some true →
       buildSoftDeleteFilter sd = [(field, VObj [("equals", VNull)])])
  ∧ ∀ (options : obj) (w : world DB S),
      ∃ passed f,
        softDeleteQueryBuilder options sd w = queryBuilder passed w
        ∧ (∀ k, k ≠ "filters" → obj_get passed k = obj_get options k)
        ∧ obj_get passed "filters" = Some (VObj f)
        ∧ ∀ k, obj_get f k
               = match obj_get (buildSoftDeleteFilter sd) k with
                 | Some cond => Some cond
                 | None => obj_get (own_props (prop options "filters")) k
                 end.
Proof.
  unfold buildSoftDeleteFilter. repeat split.
  - by intros ->.
  - intros Hi ->. by destruct (sd ≫= includeTrashed) as [[]|].
  - intros Hi Ht.
    by destruct (sd ≫= includeTrashed) as [[]|], (sd ≫= trashedOnly) as [[]|].
  - intros options w. eexists _, _.
    split; [reflexivity|].
    split; [intros k Hk; by apply with_filters_other|].
    split; [apply with_filters_filters|].
    intros k. by rewrite obj_get_spread2.
Qed.

(** *** Webhook *)

(** When the body has a JSON text, [queryWithWebhook] ends as the base
    query ends, with the same answer, whatever [fetch] does: one POST goes
    out, and a rejected delivery only leaves a line on the console. *)
Lemma queryWithWebhook_with_body
    (options : obj) (webhookUrl : string) (webhookOptions : option WebhookOptions)
    (w : world DB S) (result : QueryBuilderResponse) (d : DB) :
  execute options (db w) = (Normal result, d) →
  let run := queryWithWebhook options webhookUrl webhookOptions w in
  let base := queryBuilder options w in
  let init := webhook_request options webhookOptions result (now base.2) in
  is_Some (body init) →
  run.1 = Normal result
  ∧ db run.2 = d ∧ executed run.2 = executed w ++ [options]
  ∧ outbox run.2 = outbox w ++ [(webhookUrl, init)]
  ∧ match fetch webhookUrl init with
    | Fulfilled => console run.2 = console w
    | Rejected error =>
        console run.2 = console w ++ [ConsoleError "Webhook error:" error]
    end.
Proof.
  intros Hex. cbv zeta.
  unfold Advanced.queryWithWebhook, bind, Advanced.queryBuilder, post_and_forget, ret.
  rewrite Hex. cbn [fst snd now]. intros [text Hbody]. rewrite Hbody. cbn.
  repeat split. by destruct (fetch _ _).
Qed.

(** A failed query ends [queryWithWebhook] with the query's error, and
    nothing is sent. *)
Lemma queryWithWebhook_query_fails
    (options : obj) (webhookUrl : string) (webhookOptions : option WebhookOptions)
    (w : world DB S) (e : exn) (d : DB) :
  execute options (db w) = (Throw e, d) →
  let run := queryWithWebhook options webhookUrl webhookOptions w in
  run.1 = Throw e ∧ outbox run.2 = outbox w ∧ console run.2 = console w.
Proof.
  intros Hex. cbv zeta.
  unfold Advanced.queryWithWebhook, bind, Advanced.queryBuilder.
  by rewrite Hex.
Qed.

(** The body of the webhook has no JSON text when a row of the answer
    holds a BigInt. *)
Lemma webhook_body_throws
    (options : obj) (webhookOptions : option WebhookOptions)
    (result : QueryBuilderResponse) (t : Z) (row : obj) (column : string) (n : Z) :
  VObj row ∈ data result → obj_get row column = Some (VBigInt n) →
  body (webhook_request options webhookOptions result t) = None.
Proof.
  intros Hrow Hget. unfold Advanced.webhook_request, webhook_payload. cbn [body].
  apply (CsvFacts.stringify_object_throws _ _ _ _ "data" (VArr (data result))).
  - by destruct (default false (webhookOptions ≫= includeQuery)).
  - by apply (CsvFacts.stringify_rows_throw _ _ _ _ row column n).
Qed.

(** C2 fails on the code.  When the query answers with a row that holds
    a BigInt, [queryWithWebhook] does not return the answer: it fails
    with the [TypeError] of [JSON.stringify], thrown while the argument
    of [fetch] is built, before [fetch] is called and outside its
    [catch].  Nothing is sent and nothing is logged. *)
Theorem queryWithWebhook_body_throws
    (options : obj) (webhookUrl : string) (webhookOptions : option WebhookOptions)
    (w : world DB S) (result : QueryBuilderResponse) (d : DB)
    (row : obj) (column : string) (n : Z) :
  execute options (db w) = (Normal result, d) →
  VObj row ∈ data result →
  obj_get row column = Some (VBigInt n) →
  (queryBuilder options w).1 = Normal result
  ∧ (queryWithWebhook options webhookUrl webhookOptions w).1 = Throw type_error
  ∧ executed (queryWithWebhook options webhookUrl webhookOptions w).2
    = executed w ++ [options]
  ∧ outbox (queryWithWebhook options webhookUrl webhookOptions w).2 = outbox w
  ∧ console (queryWithWebhook options webhookUrl webhookOptions w).2 = console w.
Proof.
  intros Hex Hrow Hget.
  unfold Advanced.queryWithWebhook, bind, Advanced.queryBuilder, throw.
  rewrite Hex. cbn [fst snd now].
  by rewrite (webhook_body_throws _ _ _ _ row column n Hrow Hget).
Qed.

(** *** Presets *)

(** C10.  [executePreset] leaves the registry as it was: [loadQueryPreset]
    answers afterwards what it answered before.  For a stored preset the
    query runs on a fresh object that reads as the overrides where they
    define a name and as the preset elsewhere; for an unknown name nothing
    runs and the call fails as [loadQueryPreset] does. *)
Theorem executePreset_keeps_registry
    (name : string) (overrides : option obj) (w : world DB S) :
  let run := executePreset name overrides w in
  presets run.2 = presets w
  ∧ (loadQueryPreset name run.2).1 = (loadQueryPreset name w).1
  ∧ match presets w !! name with
    | Some preset =>
        ∃ merged,
          run = queryBuilder merged w
          ∧ executed run.2 = executed w ++ [merged]
          ∧ ∀ k, obj_get merged k
                 = match overrides ≫= (λ o, obj_get o k) with
                   | Some v => Some v
                   | None => obj_get preset k
                   end
    | None => run = (Throw (not_found name), w)
    end.
Proof.
  unfold Advanced.executePreset, bind, loadQueryPreset.
  destruct (presets w !! name) as [preset|] eqn:Hp; cbn.
  - destruct (queryBuilder_frame
                (spread2 (VObj preset) (from_option VObj VUndefined overrides)) w)
      as (Hex & _ & _ & Hpre & _).
    rewrite Hpre, Hp. repeat split.
    eexists. split; [reflexivity|]. split; [done|].
    intros k. rewrite obj_get_spread2.
    destruct overrides as [o|]; cbn; [|done]. done.
  - by rewrite Hp.
Qed.

End Decorators.

(** *** The cache, over the default [InMemoryCache] *)

Section InMemory.
Context {DB : Type}.
Variable execute : obj → DB → completion QueryBuilderResponse * DB.
Variable latency : obj → DB → Z.

Local Abbreviation queryBuilder := (Advanced.queryBuilder execute latency).
Local Abbreviation cachedQueryBuilder := (Advanced.cachedQueryBuilder execute latency).

Lemma key_given_test (cfg : option CacheConfig) k :
  key_given cfg k →
  negb (default true (cfg ≫= enabled))
  || negb (truthy (from_option VStr VUndefined (cfg ≫= key))) = false
  ∧ default EmptyString (cfg ≫= key) = k.
Proof.
  intros (c & -> & Hen & Hk & Hne). cbn. rewrite Hk. cbn.
  apply String.eqb_neq in Hne as ->.
  split; [|done]. by destruct (enabled c) as [[]|].
Qed.

Lemma cache_bypassed_test (cfg : option CacheConfig) :
  cache_bypassed cfg →
  negb (default true (cfg ≫= enabled))
  || negb (truthy (from_option VStr VUndefined (cfg ≫= key))) = true.
Proof.
  intros [->|(c & -> & [Hen|[Hk|Hk]])]; cbn; [done|..].
  - by rewrite Hen.
  - rewrite Hk. apply orb_true_r.
  - rewrite Hk. apply orb_true_r.
Qed.

(** Lazy eviction: reading an expired entry removes it. *)
Lemma InMemoryCache_get_expired k item t (cache : gmap string cache_item) :
  cache !! k = Some item → expiry item < t →
  InMemoryCache.get k t cache = (None, delete k cache).
Proof.
  intros Hk Hexp. unfold InMemoryCache.get. rewrite Hk.
  by apply Z.gtb_lt in Hexp as ->.
Qed.

Lemma InMemoryCache_get_live k item t (cache : gmap string cache_item) :
  cache !! k = Some item → t ≤ expiry item →
  InMemoryCache.get k t cache = (Some (item_value item), cache).
Proof.
  intros Hk Hlive. unfold InMemoryCache.get. rewrite Hk.
  destruct (t >? expiry item) eqn:E; [|done].
  apply Z.gtb_lt in E. lia.
Qed.

(** A miss: no entry, or one that has expired; either way the key is free
    once [get] returns. *)
Lemma InMemoryCache_get_miss k t (cache : gmap string cache_item) :
  cache !! k = None ∨ (∃ item, cache !! k = Some item ∧ expiry item < t) →
  InMemoryCache.get k t cache = (None, delete k cache).
Proof.
  intros [Hk|(item & Hk & Hexp)].
  - unfold InMemoryCache.get. rewrite Hk. by rewrite delete_id.
  - by eapply InMemoryCache_get_expired.
Qed.

Lemma cachedQueryBuilder_hit (options : obj) (cfg : option CacheConfig)
    (w : world DB (gmap string cache_item)) k item :
  key_given cfg k → cacheStore w !! k = Some item → now w ≤ expiry item →
  cachedQueryBuilder options cfg w
  = (Normal (item_value item),
     mkWorld (now w) (db w) (executed w) (cacheStore w)
       (store_calls w ++ [CallGet k]) (presets w) (outbox w) (console w)).
Proof.
  intros Hkey Hk Hlive. unfold Advanced.cachedQueryBuilder.
  destruct (key_given_test cfg k) as [-> ->]; [done|].
  unfold bind, cache_get. cbn [store_get InMemoryCache_store].
  by rewrite (InMemoryCache_get_live k item).
Qed.

Lemma cachedQueryBuilder_miss (options : obj) (cfg : option CacheConfig)
    (w : world DB (gmap string cache_item)) k :
  key_given cfg k →
  cacheStore w !! k = None
  ∨ (∃ item, cacheStore w !! k = Some item ∧ expiry item < now w) →
  cachedQueryBuilder options cfg w
  = let t := now w + latency options (db w) in
    match execute options (db w) with
    | (Normal result, d) =>
        (Normal result,
         mkWorld t d (executed w ++ [options])
           (<[k := mkItem result (t + default 300000 (cfg ≫= ttl))]> (cacheStore w))
           (store_calls w ++ [CallGet k; CallSet k result (cfg ≫= ttl)])
           (presets w) (outbox w) (console w))
    | (Throw e, d) =>
        (Throw e,
         mkWorld t d (executed w ++ [options]) (delete k (cacheStore w))
           (store_calls w ++ [CallGet k]) (presets w) (outbox w) (console w))
    end.
Proof.
  intros Hkey Hmiss. unfold Advanced.cachedQueryBuilder.
  destruct (key_given_test cfg k) as [-> ->]; [done|].
  unfold bind, cache_get, cache_set, Advanced.queryBuilder, ret.
  cbn [store_get store_set InMemoryCache_store].
  rewrite InMemoryCache_get_miss by done. cbn.
  destruct (execute options (db w)) as [[result|e] d]; cbn; [|done].
  unfold InMemoryCache.set. rewrite insert_delete_eq.
  by rewrite <- app_assoc.
Qed.

Lemma cachedQueryBuilder_bypass (options : obj) (cfg : option CacheConfig)
    (w : world DB (gmap string cache_item)) :
  cache_bypassed cfg → cachedQueryBuilder options cfg w = queryBuilder options w.
Proof.
  intros Hby. unfold Advanced.cachedQueryBuilder.
  by rewrite cache_bypassed_test.
Qed.

(** C3.  [cachedQueryBuilder] reads through the default store.  With the
    cache on and a key given: an entry that has not expired is returned and
    the query is not run; otherwise the query runs and, when it answers,
    the answer is stored under the key with expiry [Date.now() + ttl]
    ([ttl] five minutes unless given).  With the cache off or without a
    key the query runs and the store is neither asked nor changed.  An
    entry that [get] finds expired is deleted by that read. *)
Theorem cachedQueryBuilder_read_through
    (options : obj) (cfg : option CacheConfig)
    (w : world DB (gmap string cache_item)) :
  let run := cachedQueryBuilder options cfg w in
  let base := queryBuilder options w in
  (∀ k item,
     key_given cfg k → cacheStore w !! k = Some item → now w ≤ expiry item →
     run.1 = Normal (item_value item)
     ∧ executed run.2 = executed w ∧ db run.2 = db w
     ∧ cacheStore run.2 = cacheStore w)
  ∧ (∀ k,
       key_given cfg k →
       cacheStore w !! k = None
       ∨ (∃ item, cacheStore w !! k = Some item ∧ expiry item < now w) →
       run.1 = base.1
       ∧ executed run.2 = executed w ++ [options]
       ∧ db run.2 = db base.2 ∧ now run.2 = now base.2
       ∧ match base.1 with
         | Normal result =>
             cacheStore run.2
             = <[k := mkItem result (now run.2 + default 300000 (cfg ≫= ttl))]>
                 (cacheStore w)
         | Throw _ => cacheStore run.2 = delete k (cacheStore w)
         end)
  ∧ (cache_bypassed cfg →
       run = base
       ∧ cacheStore run.2 = cacheStore w ∧ store_calls run.2 = store_calls w)
  ∧ (∀ k item t (cache : gmap string cache_item),
       cache !! k = Some item → expiry item < t →
       InMemoryCache.get k t cache = (None, delete k cache)).
Proof.
  cbv zeta. split; [|split; [|split]].
  - intros k item Hkey Hk Hlive.
    by rewrite (cachedQueryBuilder_hit options cfg w k item).
  - intros k Hkey Hmiss. rewrite (cachedQueryBuilder_miss options cfg w k) by done.
    unfold Advanced.queryBuilder.
    by destruct (execute options (db w)) as [[result|e] d].
  - intros Hby. rewrite cachedQueryBuilder_bypass by done.
    split; [done|]. split; apply queryBuilder_frame.
  - intros k item t cache. apply InMemoryCache_get_expired.
Qed.

End InMemory.

Lemma cachedQueryBuilder_read_through_witness :
  (Advanced.cachedQueryBuilder demo_execute demo_latency [("model", VStr "user")]
     (Some (mkCacheConfig (Some "users") None None)) cached_world).1
  = Normal demo_response.
Proof.
  refine (proj1 (proj1 (cachedQueryBuilder_read_through demo_execute demo_latency
                          _ _ cached_world)
                   "users" (mkItem demo_response 2000) _ _ _)).
  - eexists. repeat split; done.
  - apply lookup_singleton_eq.
  - cbn. lia.
Defined.

Definition bigint_response : QueryBuilderResponse :=
  mkResponse [VObj [("id", VBigInt 1)]] [("total", VNum 1)].

Definition bigint_execute (_ : obj) (_ : unit) : completion QueryBuilderResponse * unit :=
  (Normal bigint_response, tt).

Lemma queryWithWebhook_body_throws_witness :
  (Advanced.queryBuilder bigint_execute demo_latency [("model", VStr "account")]
     demo_world).1
  = Normal bigint_response
  ∧ (Advanced.queryWithWebhook bigint_execute demo_latency (fun _ _ => Fulfilled)
       (fun _ => "2026-01-01T00:00:00.000Z") string_of_Z
       [("model", VStr "account")] "https://hooks.example/q" None demo_world).1
    = Throw type_error.
Proof.
  pose proof (queryWithWebhook_body_throws bigint_execute demo_latency
                (fun _ _ => Fulfilled) (fun _ => "2026-01-01T00:00:00.000Z")
                string_of_Z [("model", VStr "account")] "https://hooks.example/q"
                None demo_world bigint_response tt [("id", VBigInt 1)] "id" 1
                eq_refl ltac:(by apply list_elem_of_here) eq_refl)
    as (Hbase & Hrun & _).
  by split.
Defined.

(** The same failure without a BigInt in the answer: the caller's own
    options hold one and [includeQuery] puts them into the body. *)
Example queryWithWebhook_query_throws :
  (Advanced.queryWithWebhook demo_execute demo_latency (fun _ _ => Fulfilled)
     (fun _ => "2026-01-01T00:00:00.000Z") string_of_Z
     [("filters", VObj [("accountId", VBigInt 10)])] "https://hooks.example/q"
     (Some (mkWebhook None (Some true))) demo_world).1
  = Throw type_error.
Proof. by vm_compute. Qed.

(** With an answer that has a JSON text the caller gets it, delivered or
    not. *)
Example queryWithWebhook_delivery_rejected :
  let run :=
    Advanced.queryWithWebhook demo_execute demo_latency
      (fun _ _ => Rejected (JsError "ECONNREFUSED"))
      (fun _ => "2026-01-01T00:00:00.000Z") string_of_Z
      [("page", VNum 1)] "https://hooks.example/q" None demo_world in
  run.1 = Normal demo_response
  ∧ console run.2 = [ConsoleError "Webhook error:" (JsError "ECONNREFUSED")].
Proof. by vm_compute. Qed.

Lemma buildSoftDeleteFilter_cases_witness :
  buildSoftDeleteFilter (Some (mkSoftDelete (Some true) (Some true) None)) = [].
Proof.
  refine (proj1 (buildSoftDeleteFilter_cases (DB := unit) (S := unit)
                   demo_execute demo_latency _) _).
  reflexivity.
Defined.

(** C1, as the spec has it, fails: a call that leaves [tenantId] out is
    not refused, it runs the query and answers. *)
Lemma tenantQueryBuilder_accepts_missing_id :
  let cfg := mkTenant None None in
  let run := Advanced.tenantQueryBuilder demo_execute demo_latency
               [("model", VStr "user")] cfg demo_world in
  tenantId cfg = None
  ∧ run.1 = Normal demo_response
  ∧ ¬ ∃ e, run.1 = Throw e.
Proof.
  split; [reflexivity|]. split; [reflexivity|].
  intros [e He]. discriminate He.
Qed.

(** A caller that binds the tenant field itself is overruled. *)
Example tenant_filter_overrules_evil_caller :
  executed
    (Advanced.tenantQueryBuilder demo_execute demo_latency
       [("model", VStr "user"); ("filters", VObj [("tenantId", VStr "other")])]
       (mkTenant (Some "tenant_1") None) demo_world).2
  = [[("model", VStr "user"); ("filters", VObj [("tenantId", VStr "tenant_1")])]].
Proof. reflexivity. Qed.

End AdvancedFacts.
(** ** Facts about the pagination helpers *)

Module PaginationFacts.
Import Js Pagination.

Lemma last_take_lookup {A : Type} (l : list A) (n : nat) :
  (0 < n ≤ length l)%nat → last (take n l) = l !! (n - 1)%nat.
Proof.
  intros Hn. rewrite last_lookup, length_take_le by lia.
  rewrite lookup_take_lt by lia. f_equal. lia.
Qed.

(** C5.  For [limit ≥ 1]: more rows than [limit] give [hasMore = true],
    the first [limit] rows, and the cursor field of the last of those;
    otherwise all rows come back with [hasMore = false] and the cursor
    field of the last row, [null] when there is no row. *)
Theorem processCursorResults_spec
    (rows : list obj) (limit : Z) (cursorField : string) :
  1 ≤ limit →
  (Z.of_nat (length rows) > limit →
     ∃ r, rows !! (Z.to_nat limit - 1)%nat = Some r
          ∧ last (take (Z.to_nat limit) rows) = Some r
          ∧ length (take (Z.to_nat limit) rows) = Z.to_nat limit
          ∧ processCursorResults rows limit cursorField
            = Some (mkCursorPage (take (Z.to_nat limit) rows) true (prop r cursorField)))
  ∧ (Z.of_nat (length rows) ≤ limit →
       processCursorResults rows limit cursorField
       = Some (mkCursorPage rows false
                 match last rows with
                 | Some r => prop r cursorField
                 | None => VNull
                 end)
       ∧ (rows = [] →
            processCursorResults rows limit cursorField
            = Some (mkCursorPage [] false VNull))).
Proof.
  intros Hlimit. unfold processCursorResults, last_row. split.
  - intros Hmore.
    destruct (rows !! (Z.to_nat limit - 1)%nat) as [r|] eqn:Hr.
    2:{ apply lookup_ge_None in Hr. lia. }
    exists r. rewrite last_take_lookup by lia. rewrite Hr.
    split; [done|]. split; [done|]. split; [apply length_take_le; lia|].
    assert ((Z.of_nat (length rows) >? limit) = true) as -> by (apply Z.gtb_lt; lia).
    done.
  - intros Hall.
    destruct (Z.of_nat (length rows) >? limit) eqn:E.
    { apply Z.gtb_lt in E. lia. }
    split; [done|]. by intros ->.
Qed.

Lemma processCursorResults_spec_witness :
  processCursorResults
    [[("id", VStr "a")]; [("id", VStr "b")]; [("id", VStr "c")]] 5 "id"
  = Some (mkCursorPage
            [[("id", VStr "a")]; [("id", VStr "b")]; [("id", VStr "c")]]
            false (VStr "c")).
Proof.
  refine (proj1 (proj2 (processCursorResults_spec _ 5 "id" _) _)).
  - lia.
  - cbn. lia.
Defined.

(** The edge-case test and the two examples of the spec. *)
Example processCursorResults_custom_field :
  processCursorResults
    [[("slug", VStr "a")]; [("slug", VStr "b")]; [("slug", VStr "c")]] 2 "slug"
  = Some (mkCursorPage [[("slug", VStr "a")]; [("slug", VStr "b")]] true (VStr "b")).
Proof. reflexivity. Qed.

Lemma ceiling_div (total : Z) (p : positive) :
  Qceiling (inject_Z total / inject_Z (Z.pos p)) = - (- total / Z.pos p).
Proof.
  unfold Qceiling, Qfloor, Qdiv, Qmult, Qinv, Qopp, inject_Z. cbn.
  by rewrite Z.mul_1_r.
Qed.

(** C6.  For [total ≥ 0] and [limit ≥ 1], [calculateTotalPages] is the
    ceiling of [total / limit]: the least number of pages of [limit] rows
    that hold [total] rows; it is [0] exactly when [total] is. *)
Theorem calculateTotalPages_ceiling (total limit : Z) :
  0 ≤ total → 1 ≤ limit →
  let pages := calculateTotalPages total limit in
  (pages - 1) * limit < total ≤ pages * limit
  ∧ (∀ n, total ≤ n * limit → pages ≤ n)
  ∧ pages = (total + limit - 1) / limit
  ∧ (pages = 0 ↔ total = 0).
Proof.
  intros Htotal Hlimit. cbv zeta. unfold calculateTotalPages.
  destruct limit as [|p|p]; try lia.
  rewrite ceiling_div.
  pose proof (Z.div_mod (- total) (Z.pos p) ltac:(lia)) as Hdm.
  pose proof (Z.mod_pos_bound (- total) (Z.pos p) ltac:(lia)) as Hb.
  set (q := - total / Z.pos p) in *. set (r := - total mod Z.pos p) in *.
  assert ((- q - 1) * Z.pos p < total ≤ - q * Z.pos p) as Hq by nia.
  split; [done|]. split; [intros n Hn; nia|]. split; [|nia].
  apply Z.div_unique_pos with (r := total + Z.pos p - 1 - Z.pos p * - q); nia.
Qed.

Lemma calculateTotalPages_ceiling_witness :
  (calculateTotalPages 21 10 - 1) * 10 < 21 ≤ calculateTotalPages 21 10 * 10.
Proof.
  refine (proj1 (calculateTotalPages_ceiling 21 10 _ _)); lia.
Defined.

(** The edge-case test. *)
Example calculateTotalPages_zero_total : calculateTotalPages 0 10 = 0.
Proof. reflexivity. Qed.

End PaginationFacts.

(** ** Facts about the filter combinators *)

Module FiltersFacts.
Import Js Filters.

Lemma filter_nonempty_none (filters : list obj) :
  Forall (λ f, f = []) filters →
  List.filter (fun f => negb (is_empty f)) filters = [].
Proof.
  induction 1 as [|f filters -> _ IH]; [done|]. by cbn.
Qed.

(** C7.  [combineFilters]: no input gives the empty object, one input
    gives that input, two or more give an AND node over all of them.
    [combineFiltersWithOr]: inputs that are all empty give [undefined]; a
    single non-empty input among empty ones is returned as it is. *)
Theorem combine_filters_unwrap :
  combineFilters [] = []
  ∧ (∀ f, combineFilters [f] = f)
  ∧ (∀ f g rest,
       combineFilters (f :: g :: rest) = [("AND", VArr (map VObj (f :: g :: rest)))])
  ∧ (∀ filters, Forall (λ f, f = []) filters → combineFiltersWithOr filters = None)
  ∧ (∀ before f after,
       Forall (λ f, f = []) before → Forall (λ f, f = []) after → f ≠ [] →
       combineFiltersWithOr (before ++ f :: after) = Some f).
Proof.
  split; [done|]. split; [done|]. split; [done|]. split.
  - intros filters Hall. unfold combineFiltersWithOr.
    by rewrite filter_nonempty_none.
  - intros before f after Hb Ha Hf. unfold combineFiltersWithOr.
    rewrite List.filter_app. cbn [List.filter].
    rewrite !filter_nonempty_none by done.
    by destruct f.
Qed.

Lemma combine_filters_unwrap_witness :
  combineFiltersWithOr [[]; [("status", VStr "ACTIVE")]; []]
  = Some [("status", VStr "ACTIVE")].
Proof.
  refine (proj2 (proj2 (proj2 (proj2 combine_filters_unwrap)))
            [[]] [("status", VStr "ACTIVE")] [[]] _ _ _).
  - by repeat constructor.
  - by repeat constructor.
  - discriminate.
Defined.

(** The edge-case tests. *)
Example combineFilters_no_inputs : combineFilters [] = [].
Proof. reflexivity. Qed.

Example combineFilters_two_inputs :
  combineFilters [[("status", VStr "ACTIVE")]; [("isActive", VBool true)]]
  = [("AND", VArr [VObj [("status", VStr "ACTIVE")]; VObj [("isActive", VBool true)]])].
Proof. reflexivity. Qed.

Example combineFiltersWithOr_no_filters : combineFiltersWithOr [[]; []] = None.
Proof. reflexivity. Qed.

Example combineFiltersWithOr_single :
  combineFiltersWithOr [[("status", VStr "ACTIVE")]] = Some [("status", VStr "ACTIVE")].
Proof. reflexivity. Qed.

End FiltersFacts.

(** ** Scenarios over several calls *)

Module AdvancedScenarios.
Import Js JsFacts Advanced AdvancedFacts.

(** Time passing between two calls: the clock moves on by [elapsed]. *)
Definition later {DB S : Type} (elapsed : Z) (w : world DB S) : world DB S :=
  mkWorld (now w + elapsed) (db w) (executed w) (cacheStore w) (store_calls w)
    (presets w) (outbox w) (console w).

Section Twice.
Context {DB : Type}.
Variable execute : obj → DB → completion QueryBuilderResponse * DB.
Variable latency : obj → DB → Z.

Local Abbreviation cachedQueryBuilder := (Advanced.cachedQueryBuilder execute latency).

(** Two calls with one key.  After a miss that the query answered, a
    second call no later than [ttl] after the first returned gives the same
    answer and runs no query; a later one runs its query again. *)
Theorem cachedQueryBuilder_twice
    (first second : obj) (cfg : option CacheConfig)
    (w : world DB (gmap string cache_item)) (k : string)
    (result : QueryBuilderResponse) (d : DB) (elapsed : Z) :
  key_given cfg k →
  cacheStore w !! k = None →
  execute first (db w) = (Normal result, d) →
  let w1 := later elapsed (cachedQueryBuilder first cfg w).2 in
  let run := cachedQueryBuilder second cfg w1 in
  (elapsed ≤ default 300000 (cfg ≫= ttl) →
     run.1 = Normal result ∧ executed run.2 = executed w ++ [first])
  ∧ (default 300000 (cfg ≫= ttl) < elapsed →
       run.1 = (execute second d).1
       ∧ executed run.2 = executed w ++ [first; second]).
Proof.
  intros Hkey Hnone Hex. cbv zeta.
  rewrite (cachedQueryBuilder_miss execute latency first cfg w k) by auto.
  rewrite Hex. cbn [snd]. split.
  - intros Hin.
    rewrite (cachedQueryBuilder_hit execute latency second cfg _ k
               (mkItem result (now w + latency first (db w) + default 300000 (cfg ≫= ttl)))).
    + done.
    + done.
    + cbn. apply lookup_insert_eq.
    + cbn. lia.
  - intros Hout.
    rewrite (cachedQueryBuilder_miss execute latency second cfg _ k).
    + cbn. destruct (execute second d) as [[r|e] d']; cbn;
        by rewrite <- app_assoc.
    + done.
    + right. eexists. split; [apply lookup_insert_eq|]. cbn. lia.
Qed.

End Twice.

Lemma cachedQueryBuilder_twice_witness :
  (Advanced.cachedQueryBuilder demo_execute demo_latency [("page", VNum 2)]
     (Some (mkCacheConfig (Some "users") (Some 1000) None))
     (later 1000
        (Advanced.cachedQueryBuilder demo_execute demo_latency [("page", VNum 1)]
           (Some (mkCacheConfig (Some "users") (Some 1000) None)) demo_world).2)).1
  = Normal demo_response.
Proof.
  refine (proj1 (proj1 (cachedQueryBuilder_twice demo_execute demo_latency
                          [("page", VNum 1)] [("page", VNum 2)]
                          (Some (mkCacheConfig (Some "users") (Some 1000) None))
                          demo_world "users" demo_response tt 1000 _ _ _) _)).
  - eexists. repeat split; done.
  - apply lookup_empty.
  - reflexivity.
  - cbn. lia.
Defined.

Section Registry.
Context {DB S : Type}.

(** Saving under a name overwrites; loading an unknown name fails. *)
Theorem preset_registry (name : string) (old new : obj) (w : world DB S) :
  (loadQueryPreset name (saveQueryPreset name new (saveQueryPreset name old w).2).2).1
  = Normal new
  ∧ (presets w !! name = None →
       loadQueryPreset name w = (Throw (not_found name), w))
  ∧ (loadQueryPreset name (deletePreset name w).2).1 = Throw (not_found name).
Proof.
  unfold loadQueryPreset, saveQueryPreset, deletePreset. cbn. split; [|split].
  - by rewrite lookup_insert_eq.
  - by intros ->.
  - by rewrite lookup_delete_eq.
Qed.

End Registry.

Lemma preset_registry_witness :
  loadQueryPreset "active-users" demo_world
  = (Throw (not_found "active-users"), demo_world).
Proof.
  refine (proj1 (proj2 (preset_registry "active-users" [] [] demo_world)) _).
  apply lookup_empty.
Defined.

End AdvancedScenarios.

(** ** Facts about the default store and about stores in general *)

Module StoreFacts.
Import Js JsFacts Advanced AdvancedFacts AdvancedScenarios.

(** The default store, one entry at a time: what [set] wrote is read back
    until its expiry and is gone after it; reading or writing one key
    leaves every other key as it was (an expired entry stays until its own
    key is read); [delete] and [clear] forget the entry. *)
Theorem InMemoryCache_set_then_get
    (k : string) (v : QueryBuilderResponse) (ttl : option Z) (t t' : Z)
    (cache : gmap string cache_item) :
  let cache' := InMemoryCache.set k v ttl t cache in
  (t' ≤ t + default 300000 ttl →
     InMemoryCache.get k t' cache' = (Some v, cache'))
  ∧ (t + default 300000 ttl < t' →
       InMemoryCache.get k t' cache' = (None, delete k cache))
  ∧ (∀ k', k' ≠ k →
       (InMemoryCache.get k' t' cache').1 = (InMemoryCache.get k' t' cache).1)
  ∧ (∀ q k', k' ≠ q → (InMemoryCache.get q t' cache).2 !! k' = cache !! k')
  ∧ (InMemoryCache.get k t' (InMemoryCache.delete k cache')).1 = None
  ∧ (∀ q, (InMemoryCache.get q t' (InMemoryCache.clear cache')).1 = None).
Proof.
  cbv zeta. unfold InMemoryCache.set. repeat apply conj.
  - intros Hlive.
    rewrite (InMemoryCache_get_live k (mkItem v (t + default 300000 ttl)));
      [done | apply lookup_insert_eq | done].
  - intros Hexp.
    rewrite (InMemoryCache_get_expired k (mkItem v (t + default 300000 ttl)));
      [by rewrite delete_insert_eq | apply lookup_insert_eq | done].
  - intros k' Hne. unfold InMemoryCache.get.
    rewrite lookup_insert_ne by done.
    destruct (cache !! k') as [item|]; [|done].
    by destruct (t' >? expiry item).
  - intros q k' Hne. unfold InMemoryCache.get.
    destruct (cache !! q) as [item|]; [|done].
    destruct (t' >? expiry item); [|done].
    cbn. by rewrite lookup_delete_ne.
  - unfold InMemoryCache.get, InMemoryCache.delete.
    by rewrite lookup_delete_eq.
  - intros q. unfold InMemoryCache.get, InMemoryCache.clear.
    by rewrite lookup_empty.
Qed.

Lemma InMemoryCache_set_then_get_witness :
  InMemoryCache.get "users" 1500
    (InMemoryCache.set "users" demo_response (Some 1000) 1000 ∅)
  = (Some demo_response, InMemoryCache.set "users" demo_response (Some 1000) 1000 ∅).
Proof.
  refine (proj1 (InMemoryCache_set_then_get "users" demo_response (Some 1000)
                   1000 1500 ∅) _).
  cbn. lia.
Defined.

Section AnyStore.
Context {DB S : Type} `{CacheStore S}.
Variable execute : obj → DB → completion QueryBuilderResponse * DB.
Variable latency : obj → DB → Z.

Local Abbreviation queryBuilder := (Advanced.queryBuilder execute latency).
Local Abbreviation cachedQueryBuilder := (Advanced.cachedQueryBuilder execute latency).

(** Any store put in by [setCacheStore] is used the same way.  With the
    cache on and a key given, the store is asked once.  When [get]
    rejects, the call rejects with its error and no query runs.  When it
    answers a value, that value is returned and no query runs.  When it
    answers nothing, the query runs; a failed query ends the call with
    its error and [set] is not called; an answer is handed to [set],
    once, with the caller's [ttl] as given, and it is returned unless
    [set] rejects, in which case the call rejects with the error of
    [set] although the query ran. *)
Theorem cachedQueryBuilder_store_protocol
    (options : obj) (cfg : option CacheConfig) (w : world DB S) (k : string) :
  key_given cfg k →
  let run := cachedQueryBuilder options cfg w in
  let base := queryBuilder options w in
  let got := store_get k (now w) (cacheStore w) in
  match got.1 with
  | Throw e =>
      run.1 = Throw e ∧ executed run.2 = executed w
      ∧ store_calls run.2 = store_calls w ++ [CallGet k]
      ∧ cacheStore run.2 = got.2
  | Normal (Some r) =>
      run.1 = Normal r ∧ executed run.2 = executed w
      ∧ store_calls run.2 = store_calls w ++ [CallGet k]
      ∧ cacheStore run.2 = got.2
  | Normal None =>
      executed run.2 = executed w ++ [options]
      ∧ match base.1 with
        | Normal result =>
            let put := store_set k result (cfg ≫= ttl) (now base.2) got.2 in
            store_calls run.2
            = store_calls w ++ [CallGet k; CallSet k result (cfg ≫= ttl)]
            ∧ cacheStore run.2 = put.2
            ∧ run.1 = match put.1 with
                      | Normal _ => Normal result
                      | Throw e => Throw e
                      end
        | Throw e =>
            run.1 = Throw e
            ∧ store_calls run.2 = store_calls w ++ [CallGet k]
            ∧ cacheStore run.2 = got.2
        end
  end.
Proof.
  intros Hkey. cbv zeta. unfold Advanced.cachedQueryBuilder.
  destruct (key_given_test cfg k) as [-> ->]; [done|].
  unfold bind, cache_get, cache_set, Advanced.queryBuilder, ret.
  destruct (store_get k (now w) (cacheStore w)) as [[[r|]|e] s]; cbn; [done| |done].
  destruct (execute options (db w)) as [[result|e] d]; cbn; [|done].
  destruct (store_set k result (cfg ≫= ttl) _ s) as [[[]|e] s']; cbn;
    by rewrite <- app_assoc.
Qed.

End AnyStore.

Lemma cachedQueryBuilder_store_protocol_witness :
  store_calls
    (Advanced.cachedQueryBuilder demo_execute demo_latency [("page", VNum 1)]
       (Some (mkCacheConfig (Some "users") (Some 1000) None)) demo_world).2
  = [CallGet "users"; CallSet "users" demo_response (Some 1000)].
Proof.
  pose proof (cachedQueryBuilder_store_protocol demo_execute demo_latency
                [("page", VNum 1)]
                (Some (mkCacheConfig (Some "users") (Some 1000) None))
                demo_world "users") as Hp.
  cbv zeta in Hp. cbn [fst snd store_get InMemoryCache_store] in Hp.
  destruct Hp as (_ & Hcalls & _).
  - eexists. repeat split; done.
  - exact Hcalls.
Defined.

(** A store whose [get] answers nothing and whose [set] rejects, as a
    remote store that went away does. *)
Definition readonly_store : CacheStore unit := {|
  store_get _ _ s := (Normal None, s);
  store_set _ _ _ _ s := (Throw (JsError "READONLY"), s);
  store_delete _ s := (Normal tt, s);
  store_clear s := (Normal tt, s)
|}.

Example cachedQueryBuilder_set_rejects :
  let run :=
    @Advanced.cachedQueryBuilder unit unit readonly_store demo_execute demo_latency
      [("page", VNum 1)] (Some (mkCacheConfig (Some "users") None None))
      (mkWorld 1000 tt [] tt [] ∅ [] []) in
  run.1 = Throw (JsError "READONLY") ∧ executed run.2 = [[("page", VNum 1)]].
Proof. done. Qed.

Section Failure.
Context {DB : Type}.
Variable execute : obj → DB → completion QueryBuilderResponse * DB.
Variable latency : obj → DB → Z.

Local Abbreviation cachedQueryBuilder := (Advanced.cachedQueryBuilder execute latency).

(** A failed query is not cached: the call fails as the query did, the
    key stays free, and the next call with that key, whenever it comes,
    runs its query. *)
Theorem cachedQueryBuilder_failure_not_cached
    (first second : obj) (cfg : option CacheConfig)
    (w : world DB (gmap string cache_item)) (k : string)
    (e : exn) (d : DB) (elapsed : Z) :
  key_given cfg k →
  cacheStore w !! k = None →
  execute first (db w) = (Throw e, d) →
  let run1 := cachedQueryBuilder first cfg w in
  let run2 := cachedQueryBuilder second cfg (later elapsed run1.2) in
  run1.1 = Throw e
  ∧ cacheStore run1.2 !! k = None
  ∧ run2.1 = (execute second d).1
  ∧ executed run2.2 = executed w ++ [first; second].
Proof.
  intros Hkey Hnone Hex. cbv zeta.
  rewrite (cachedQueryBuilder_miss execute latency first cfg w k) by auto.
  rewrite Hex. cbn [fst snd].
  split; [done|]. split; [cbn; by rewrite lookup_delete_eq|].
  rewrite (cachedQueryBuilder_miss execute latency second cfg _ k).
  - cbn. destruct (execute second d) as [[r|e'] d']; cbn; by rewrite <- app_assoc.
  - done.
  - left. cbn. by rewrite lookup_delete_eq.
Qed.

End Failure.

Definition failing_execute (_ : obj) (_ : unit)
  : completion QueryBuilderResponse * unit :=
  (Throw (JsError "connection lost"), tt).

Lemma cachedQueryBuilder_failure_not_cached_witness :
  (Advanced.cachedQueryBuilder failing_execute demo_latency [("page", VNum 1)]
     (Some (mkCacheConfig (Some "users") None None)) demo_world).1
  = Throw (JsError "connection lost").
Proof.
  refine (proj1 (cachedQueryBuilder_failure_not_cached failing_execute demo_latency
                   [("page", VNum 1)] [("page", VNum 1)]
                   (Some (mkCacheConfig (Some "users") None None))
                   demo_world "users" (JsError "connection lost") tt 0 _ _ _)).
  - eexists. repeat split; done.
  - apply lookup_empty.
  - reflexivity.
Defined.

End StoreFacts.

(** ** Facts about the rest of the module *)

Module AdvancedRestFacts.
Import Js JsFacts Advanced AdvancedFacts AdvancedRest.

(** *** The webhook request *)

(** The POST that [queryWithWebhook] sends: the caller's headers are all
    kept and win over the default [Content-Type], which is set only when
    the caller names none; the body is the JSON text of an object holding
    the answer's [data] and [meta] and the timestamp, and the query
    options exactly when [includeQuery] is set (no body, a [TypeError],
    when that object has no JSON text). *)
Theorem webhook_request_shape
    (toISOString : Z → string) (unsafe_number_text : Z → string) (options : obj)
    (webhookOptions : option WebhookOptions)
    (result : QueryBuilderResponse) (t : Z) :
  let init :=
    webhook_request toISOString unsafe_number_text options webhookOptions result t in
  let given := own_props (from_option VObj VUndefined (webhookOptions ≫= wh_headers)) in
  method init = "POST"
  ∧ (∀ k v, obj_get given k = Some v → obj_get (headers init) k = Some v)
  ∧ (obj_get given "Content-Type" = None →
       obj_get (headers init) "Content-Type" = Some (VStr "application/json"))
  ∧ ∃ payload,
      body init = Csv.serialize unsafe_number_text (VObj payload)
      ∧ obj_get payload "data" = Some (VArr (data result))
      ∧ obj_get payload "meta" = Some (VObj (meta result))
      ∧ obj_get payload "timestamp" = Some (VStr (toISOString t))
      ∧ obj_get payload "query"
        = (if default false (webhookOptions ≫= includeQuery)
           then Some (VObj options) else None).
Proof.
  cbv zeta. unfold webhook_request. cbn [method headers body]. unfold obj in *.
  split; [done|]. split; [|split].
  - intros k v Hk. by rewrite obj_get_assign, Hk.
  - intros Hct. by rewrite obj_get_assign, Hct.
  - unfold webhook_payload. eexists. split; [reflexivity|].
    destruct (default false (webhookOptions ≫= includeQuery));
      rewrite !obj_get_assign; cbn; done.
Qed.

(** *** [generateCacheKey] *)

Lemma prop_set (o : obj) k v q :
  prop (obj_set k v o) q = if String.eqb q k then v else prop o q.
Proof. unfold prop. rewrite obj_get_set. by destruct (String.eqb q k). Qed.

Section CacheKey.
Variable unsafe_number_text : Z → string.

Local Abbreviation generateCacheKey := (AdvancedRest.generateCacheKey unsafe_number_text).

(** Two option objects whose models have the same [name] and that agree
    on the six other keyed options get the same key, or fail alike. *)
Lemma generateCacheKey_same (options options' : obj) :
  optional_name (prop options "model") = optional_name (prop options' "model") →
  (∀ k, k ∈ key_options → k ≠ "model" → prop options k = prop options' k) →
  generateCacheKey options = generateCacheKey options'.
Proof.
  intros Hname Hsame. unfold AdvancedRest.generateCacheKey.
  rewrite Hname.
  rewrite !(Hsame "page"), !(Hsame "limit"),
    !(Hsame "search"), !(Hsame "filters"), !(Hsame "sortBy"),
    !(Hsame "sortOrder"); [done|(unfold key_options; set_solver) || done..].
Qed.

(** The key is made of seven options only: the [name] of [model], and
    [page], [limit], [search], [filters], [sortBy] and [sortOrder].  Two
    option objects whose models have the same [name] (the models may
    differ otherwise) and that agree on the six others get the same key,
    or fail alike; so setting any other option, [searchFields] or
    [relationFilters] or [select] say, leaves the key as it was. *)
Theorem generateCacheKey_reads_seven_options (options options' : obj) :
  optional_name (prop options "model") = optional_name (prop options' "model") →
  (∀ k, k ∈ key_options → k ≠ "model" → prop options k = prop options' k) →
  generateCacheKey options = generateCacheKey options'
  ∧ ∀ k v, k ∉ key_options →
      generateCacheKey (obj_set k v options) = generateCacheKey options.
Proof.
  intros Hname Hsame. split; [by apply generateCacheKey_same|].
  intros k v Hk.
  assert (∀ q, q ∈ key_options → prop (obj_set k v options) q = prop options q) as Hq.
  { intros q Hq. rewrite prop_set. destruct (String.eqb q k) eqn:E; [|done].
    apply String.eqb_eq in E. by subst q. }
  apply generateCacheKey_same.
  - rewrite Hq; [done|unfold key_options; set_solver].
  - intros q Hin _. by apply Hq.
Qed.

(** A falsy [page], [limit], [sortBy] or [sortOrder] (left out, [0], the
    empty text, [null]) is keyed as the default: [1], [10], [createdAt],
    [desc]. *)
Theorem generateCacheKey_defaults (options : obj) :
  (truthy (prop options "page") = false →
     generateCacheKey options = generateCacheKey (obj_set "page" (VNum 1) options))
  ∧ (truthy (prop options "limit") = false →
       generateCacheKey options = generateCacheKey (obj_set "limit" (VNum 10) options))
  ∧ (truthy (prop options "sortBy") = false →
       generateCacheKey options
       = generateCacheKey (obj_set "sortBy" (VStr "createdAt") options))
  ∧ (truthy (prop options "sortOrder") = false →
       generateCacheKey options
       = generateCacheKey (obj_set "sortOrder" (VStr "desc") options)).
Proof.
  unfold AdvancedRest.generateCacheKey, or_else.
  repeat apply conj; intros Hf; rewrite !prop_set; cbn [String.eqb Ascii.eqb Bool.eqb];
    by rewrite Hf.
Qed.

End CacheKey.

Lemma generateCacheKey_reads_seven_options_witness :
  AdvancedRest.generateCacheKey string_of_Z
    [("model", VObj [("name", VStr "User"); ("fields", VArr [VStr "id"])]);
     ("page", VNum 2); ("searchFields", VArr [VStr "email"])]
  = AdvancedRest.generateCacheKey string_of_Z
      [("model", VObj [("name", VStr "User")]);
       ("page", VNum 2); ("searchFields", VArr [VStr "name"])].
Proof.
  refine (proj1 (generateCacheKey_reads_seven_options string_of_Z _ _ _ _)).
  - reflexivity.
  - intros k Hk Hne. unfold key_options in Hk.
    apply elem_of_cons in Hk as [->|Hk]; [done|].
    repeat (apply elem_of_cons in Hk as [->|Hk]; [reflexivity|]).
    by apply elem_of_nil in Hk.
Defined.

Lemma generateCacheKey_defaults_witness :
  AdvancedRest.generateCacheKey string_of_Z [("page", VNum 0)]
  = AdvancedRest.generateCacheKey string_of_Z
      (obj_set "page" (VNum 1) [("page", VNum 0)]).
Proof.
  refine (proj1 (generateCacheKey_defaults string_of_Z _) _). reflexivity.
Defined.

(** *** [groupByQuery] *)



End AdvancedRestFacts.

(** ** Facts about export and monitoring *)

Module ExportFacts.
Import Js JsFacts Advanced AdvancedFacts AdvancedRest Csv CsvFacts.


Lemma export_options_limit (options : obj) (maxRows : option Z) :
  obj_get (export_options options maxRows) "limit"
  = Some (VNum (default 10000 maxRows)).
Proof. apply obj_get_set_eq. Qed.

Lemma export_options_other (options : obj) (maxRows : option Z) k :
  k ≠ "limit" → obj_get (export_options options maxRows) k = obj_get options k.
Proof. intros Hk. unfold export_options. by rewrite obj_get_set_ne, obj_get_copy. Qed.

Section Exporting.
Context {DB S : Type}.
Variable execute : obj → DB → completion QueryBuilderResponse * DB.
Variable latency : obj → DB → Z.
Variable unsafe_number_text : Z → string.
Variable toCSV_other : list value → completion string.

Local Abbreviation queryBuilder := (Advanced.queryBuilder execute latency).
Local Abbreviation toCSV := (Csv.toCSV unsafe_number_text).
Local Abbreviation stringify := (Csv.stringify unsafe_number_text).
Local Abbreviation queryAndExportCSV :=
  (AdvancedRest.queryAndExportCSV execute latency unsafe_number_text toCSV_other).
Local Abbreviation queryAndExportJSON :=
  (AdvancedRest.queryAndExportJSON execute latency unsafe_number_text).


(** [queryAndExportJSON] runs the same one query as [queryAndExportCSV]:
    the caller's options with [limit] replaced by [maxRows] ([10000]
    unless given).  A failed query fails the export.  An answer is
    exported as the JSON text of its rows, indented by two spaces unless
    [pretty] is [false] and then without indentation; when a row holds a
    BigInt there is no such text and the export throws a [TypeError]. *)
Theorem queryAndExportJSON_runs_capped_query
    (options : obj) (maxRows : option Z) (pretty : option bool) (w : world DB S) :
  ∃ passed,
    let run := queryAndExportJSON options maxRows pretty w in
    let base := queryBuilder passed w in
    run.2 = base.2
    ∧ run.2 = (queryAndExportCSV options maxRows w).2
    ∧ executed run.2 = executed w ++ [passed]
    ∧ obj_get passed "limit" = Some (VNum (default 10000 maxRows))
    ∧ (∀ k, k ≠ "limit" → obj_get passed k = obj_get options k)
    ∧ match base.1 with
      | Throw e => run.1 = Throw e
      | Normal result =>
          run.1 = match stringify (if default true pretty then "  " else EmptyString)
                          EmptyString (VArr (data result)) with
                  | Some text => Normal text
                  | None => Throw type_error
                  end
          ∧ (∀ row column n,
               VObj row ∈ data result → obj_get row column = Some (VBigInt n) →
               run.1 = Throw type_error)
      end.
Proof.
  exists (export_options options maxRows). cbv zeta.
  unfold AdvancedRest.queryAndExportJSON, AdvancedRest.queryAndExportCSV.
  destruct (queryBuilder_frame execute latency (export_options options maxRows) w)
    as (Hex & _).
  destruct (queryBuilder (export_options options maxRows) w) as [[result|e] w'];
    cbn [fst snd] in *;
    (split; [done|]); (split; [done|]); (split; [done|]);
    (split; [apply export_options_limit|]);
    (split; [intros k Hk; by apply export_options_other|]); [|done].
  unfold toJSON. split; [done|].
  intros row column n Hrow Hget.
  by rewrite (stringify_rows_throw unsafe_number_text _ _ _ row column n Hrow Hget).
Qed.

End Exporting.

(** The export of one row: the header line and the row; the indented
    JSON text, the bracket and the braces on lines of their own. *)
Example export_one_row :
  let execute (_ : obj) (_ : unit) : completion QueryBuilderResponse * unit :=
    (Normal (mkResponse [VObj [("id", VNum 7); ("name", VStr "Ada, Countess")]] []),
     tt) in
  (AdvancedRest.queryAndExportCSV execute demo_latency string_of_Z
     (fun _ => Throw type_error) [] None demo_world).1
  = Normal ("id,name" +:+ str1 LF +:+ "7," +:+ str1 dquote +:+ "Ada, Countess"
            +:+ str1 dquote)
  ∧ (AdvancedRest.queryAndExportJSON execute demo_latency string_of_Z
       [] None None demo_world).1
    = Normal ("[" +:+ str1 LF +:+ "  {" +:+ str1 LF
              +:+ "    " +:+ quote_json "id" +:+ ": 7," +:+ str1 LF
              +:+ "    " +:+ quote_json "name" +:+ ": " +:+ quote_json "Ada, Countess"
              +:+ str1 LF +:+ "  }" +:+ str1 LF +:+ "]").
Proof. by vm_compute. Qed.

(** A column named [constructor] that a later row lacks: that row reads
    the inherited function and the export throws. *)
Example export_inherited_member_throws :
  let execute (_ : obj) (_ : unit) : completion QueryBuilderResponse * unit :=
    (Normal (mkResponse [VObj [("constructor", VStr "x"); ("id", VNum 1)];
                         VObj [("id", VNum 2)]] []),
     tt) in
  (AdvancedRest.queryAndExportCSV execute demo_latency string_of_Z
     (fun _ => Throw type_error) [] None demo_world).1
  = Throw type_error.
Proof. by vm_compute. Qed.

Section Monitoring.
Context {DB S Obs : Type}.
Variable execute : obj → DB → completion QueryBuilderResponse * DB.
Variable latency : obj → DB → Z.

Local Abbreviation queryBuilder := (Advanced.queryBuilder execute latency).
Local Abbreviation monitoredQueryBuilder :=
  (AdvancedRest.monitoredQueryBuilder (S := S) (Obs := Obs) execute latency).

(** [monitoredQueryBuilder] with no observer registered: it ends as the
    base query ends and leaves the same world.  An answer comes back
    unchanged with its metrics beside it: the time the query took, the
    answer's [meta.total], the time of the measurement, and [isSlow] set
    exactly when the query took more than one second, in which case, and
    only then, one warning is written.  A failed query is measured and
    warned about not at all. *)
Theorem monitoredQueryBuilder_measures
    (options : obj) (w : world DB S) (m : monitor) :
  metricsCallback m = None →
  let run := monitoredQueryBuilder options w m in
  let base := queryBuilder options w in
  let elapsed := latency options (db w) in
  run.1.2 = base.2
  ∧ observer run.2 = observer m
  ∧ match base.1 with
    | Throw e => run.1.1 = Throw e ∧ warnings run.2 = warnings m
    | Normal result =>
        ∃ metrics,
          run.1.1 = Normal (mkMonitored result metrics)
          ∧ queryTime metrics = elapsed
          ∧ resultCount metrics = prop (meta result) "total"
          ∧ timestamp metrics = now w + elapsed
          ∧ (isSlow metrics = true ↔ 1000 < elapsed)
          ∧ (1000 < elapsed → ∃ warned, warnings run.2 = warnings m ++ [warned])
          ∧ (elapsed ≤ 1000 → warnings run.2 = warnings m)
    end.
Proof.
  intros Hnone. cbv zeta. unfold AdvancedRest.monitoredQueryBuilder, Advanced.queryBuilder.
  destruct (execute options (db w)) as [[result|e] d]; cbn [fst snd now meta]; [|done].
  rewrite Hnone. cbn [fst snd observer warnings].
  replace (now w + latency options (db w) - now w) with (latency options (db w)) by lia.
  split; [done|]. split; [done|].
  eexists. split; [reflexivity|]. cbn [queryTime resultCount timestamp isSlow].
  split; [done|]. split; [done|]. split; [done|].
  unfold SLOW_QUERY_THRESHOLD.
  destruct (latency options (db w) >? 1000) eqn:E.
  - apply Z.gtb_lt in E. split; [done|]. split; [eauto|lia].
  - assert (latency options (db w) ≤ 1000) as Hle.
    { destruct (Z.gtb_spec (latency options (db w)) 1000); [done|lia]. }
    split; [split; [done|lia]|]. split; [lia|done].
Qed.


End Monitoring.

Lemma monitoredQueryBuilder_measures_witness :
  (AdvancedRest.monitoredQueryBuilder (Obs := unit) demo_execute demo_latency
     [("page", VNum 1)] demo_world (mkMonitor None tt [])).1.2
  = (Advanced.queryBuilder demo_execute demo_latency [("page", VNum 1)] demo_world).2.
Proof.
  refine (proj1 (monitoredQueryBuilder_measures demo_execute demo_latency
                   [("page", VNum 1)] demo_world (mkMonitor None tt []) _)).
  reflexivity.
Defined.

End ExportFacts.

(** ** More facts about the CSV export *)

Module CsvMoreFacts.
Import Js JsFacts Csv CsvFacts.

(** Two cells are written alike only when they are the same text. *)
Theorem escapeCsv_injective (a b : string) :
  escapeCsv a = escapeCsv b → a = b.
Proof.
  intros Heq.
  pose proof (split_row_cell_last a) as Ha.
  rewrite Heq, split_row_cell_last in Ha. by injection Ha as ->.
Qed.

Lemma escapeCsv_injective_witness :
  String comma EmptyString = String comma EmptyString.
Proof.
  refine (escapeCsv_injective _ _ _). reflexivity.
Defined.

Lemma escapeCsv_plain (raw : string) :
  (∀ c, c ∈ chars_of raw → ¬ special c) → escapeCsv raw = raw.
Proof.
  intros Hs. unfold escapeCsv. destruct (needsQuotes raw) eqn:E.
  - apply needsQuotes_spec in E as (c & Hin & Hsp). by destruct (Hs c Hin).
  - apply replace_all_absent. intros Hin. apply (Hs _ Hin). right; by left.
Qed.



Section Text.
Variable unsafe_number_text : Z → string.

Local Abbreviation csvRow := (Csv.csvRow unsafe_number_text).
Local Abbreviation toCSV := (Csv.toCSV unsafe_number_text).


(** The header line is the names of the first row's properties joined by
    commas, written as they are, and a line follows for every row.  The
    header reads back as those names whenever none of them holds a comma,
    a double quote or a line break. *)
Theorem toCSV_header_line (first : obj) (rest : list obj) (text : string) :
  toCSV (first :: rest) = Some text →
  ∃ rows,
    text = String.concat (str1 LF) (String.concat (str1 comma) (keys first) :: rows)
    ∧ length rows = S (length rest)
    ∧ (∀ k, k ∈ keys first ↔ is_Some (obj_get first k))
    ∧ (keys first ≠ [] →
       (∀ k c, k ∈ keys first → c ∈ chars_of k → ¬ special c) →
       rfc4180_fields (String.concat (str1 comma) (keys first)) = Some (keys first)).
Proof.
  intros Htext. unfold Csv.toCSV in Htext.
  apply fmap_Some in Htext as (rows & Hrows & ->).
  exists rows. split; [done|].
  split; [by rewrite <- (length_mapM _ _ _ Hrows)|].
  split; [apply JsFacts.elem_of_keys|].
  intros Hne Hplain.
  rewrite <- (split_row_cells (keys first)) by done.
  f_equal. f_equal. clear Hrows Hne.
  induction (keys first) as [|k ks IH]; [done|].
  cbn [map]. rewrite escapeCsv_plain.
  - f_equal. apply IH. intros q c Hq. apply Hplain. by right.
  - intros c. apply Hplain. by left.
Qed.

End Text.


Lemma toCSV_header_line_witness :
  ∃ rows,
    "2,10,name" +:+ str1 LF +:+ "0,1," +:+ str1 dquote +:+ "a,b" +:+ str1 dquote
    = String.concat (str1 LF) ("2,10,name" :: rows)
    ∧ length rows = 1%nat.
Proof.
  destruct (toCSV_header_line string_of_Z
              [("name", VStr "a,b"); ("10", VNum 1); ("2", VNum 0)] []
              ("2,10,name" +:+ str1 LF +:+ "0,1," +:+ str1 dquote +:+ "a,b"
               +:+ str1 dquote) eq_refl)
    as (rows & Htext & Hlen & _).
  exists rows. by split.
Defined.

(** [Object.keys] lists the names that are array indices first, in
    ascending order, and then the others as they were defined; the header
    line follows it. *)
Example toCSV_header_order :
  Csv.toCSV string_of_Z [[("name", VStr "Ada"); ("10", VNum 1); ("2", VNum 0)]]
  = Some ("2,10,name" +:+ str1 LF +:+ "0,1,Ada").
Proof. reflexivity. Qed.

(** A name with a comma in it is not escaped: the header then reads back
    as more fields than there are names. *)
Example toCSV_header_with_comma :
  rfc4180_fields (String.concat (str1 comma) (keys [("a,b", VNum 1)]))
  = Some ["a"; "b"].
Proof. reflexivity. Qed.

End CsvMoreFacts.

(** ** Decorators put together *)

Module CompositionFacts.
Import Js JsFacts Advanced AdvancedFacts AdvancedScenarios AdvancedRest.

Section SoftDelete.
Context {DB S : Type}.
Variable execute : obj → DB → completion QueryBuilderResponse * DB.
Variable latency : obj → DB → Z.

Local Abbreviation softDeleteQueryBuilder :=
  (Advanced.softDeleteQueryBuilder (S := S) execute latency).

(** A caller's own condition on the deleted-at field does not get past
    [softDeleteQueryBuilder]: unless [includeTrashed] is set, the options
    that reach [queryBuilder] bind the field to the decorator's condition;
    with [includeTrashed] the caller's condition, if any, stands. *)
Theorem soft_delete_overrides_caller
    (options : obj) (sd : option SoftDeleteOptions) (w : world DB S) :
  let field := default "deletedAt" (sd ≫= deletedAtField) in
  ∃ passed f,
    executed (softDeleteQueryBuilder options sd w).2 = executed w ++ [passed]
    ∧ obj_get passed "filters" = Some (VObj f)
    ∧ (sd ≫= includeTrashed = Some true →
         ∀ k, obj_get f k = obj_get (own_props (prop options "filters")) k)
    ∧ (sd ≫= includeTrashed ≠ Some true →
         obj_get f field
         = Some (VObj [(if default false (sd ≫= trashedOnly) then "not" else "equals",
                        VNull)])).
Proof.
  cbv zeta. eexists _, _. split.
  { unfold Advanced.softDeleteQueryBuilder. apply queryBuilder_frame. }
  split; [apply with_filters_filters|].
  unfold buildSoftDeleteFilter. split.
  - intros -> k. rewrite obj_get_spread2. cbn. by destruct (obj_get _ k).
  - intros Hinc.
    destruct (sd ≫= includeTrashed) as [[]|]; [done|..];
      cbn [default from_option id];
      destruct (default false (sd ≫= trashedOnly));
      by rewrite soft_filters_lookup, String.eqb_refl.
Qed.

End SoftDelete.

Lemma soft_delete_overrides_caller_witness :
  ∃ passed f,
    executed
      (Advanced.softDeleteQueryBuilder demo_execute demo_latency
         [("filters", VObj [("deletedAt", VObj [("not", VNull)])])]
         None demo_world).2
    = executed demo_world ++ [passed]
    ∧ obj_get passed "filters" = Some (VObj f)
    ∧ obj_get f "deletedAt" = Some (VObj [("equals", VNull)]).
Proof.
  destruct (soft_delete_overrides_caller demo_execute demo_latency
              [("filters", VObj [("deletedAt", VObj [("not", VNull)])])]
              None demo_world) as (passed & f & Hex & Hf & _ & Hcond).
  exists passed, f. split; [exact Hex|]. split; [exact Hf|].
  apply Hcond. discriminate.
Defined.

Lemma concat_not_empty (sep : string) (l : list string) (s : string) :
  In s l → s ≠ EmptyString → String.concat sep l ≠ EmptyString.
Proof.
  intros Hin Hs. induction l as [|x l IH]; [done|].
  cbn [String.concat]. destruct l as [|y l].
  - destruct Hin as [->|[]]. done.
  - destruct Hin as [->|Hin].
    + destruct s; [done|]. by rewrite CsvFacts.append_cons.
    + specialize (IH Hin). destruct x; [|by rewrite CsvFacts.append_cons].
      rewrite CsvFacts.append_nil. destruct sep; [by rewrite CsvFacts.append_nil|].
      by rewrite CsvFacts.append_cons.
Qed.

Section KeyCollision.
Context {DB : Type}.
Variable execute : obj → DB → completion QueryBuilderResponse * DB.
Variable latency : obj → DB → Z.
Variable unsafe_number_text : Z → string.

Local Abbreviation cachedQueryBuilder := (Advanced.cachedQueryBuilder execute latency).
Local Abbreviation generateCacheKey := (AdvancedRest.generateCacheKey unsafe_number_text).

(** The generated key is never empty: it always holds its [page:] part. *)
Lemma generateCacheKey_not_empty (options : obj) (key : string) :
  generateCacheKey options = Normal key → key ≠ EmptyString.
Proof.
  unfold AdvancedRest.generateCacheKey, join.
  match goal with |- match ?m with _ => _ end = _ → _ => destruct m as [part|] end;
    [|done].
  intros Heq.
  match type of Heq with
  | Normal (String.concat _ ?l) = _ => set (texts := l) in Heq
  end.
  injection Heq as <-. subst texts.
  set (page := "page:" +:+ Csv.to_string unsafe_number_text
                             (or_else (prop options "page") (VNum 1))).
  assert (page ≠ EmptyString) as Hpage by (subst page; by rewrite CsvFacts.append_cons).
  apply (concat_not_empty _ _ page); [|done].
  apply in_map_iff. exists (VStr page). split; [done|].
  apply List.filter_In. split; [right; by left|].
  cbn [truthy]. by destruct page.
Qed.

(** Keys made by [generateCacheKey] collide.  When a first query was
    cached under the key of its options, a second query whose options
    agree on the seven keyed options and differ elsewhere (in
    [searchFields], [select], [relationFilters], ...) has the same key
    and, asked under it before the entry expires, is not run: it is given
    the first query's answer. *)
Theorem generated_key_collision
    (first second : obj) (ttl : option Z)
    (w : world DB (gmap string cache_item))
    (result : QueryBuilderResponse) (d : DB) (elapsed : Z) (key : string) :
  (∀ k, k ∈ key_options → prop first k = prop second k) →
  generateCacheKey first = Normal key →
  cacheStore w !! key = None →
  execute first (db w) = (Normal result, d) →
  elapsed ≤ default 300000 ttl →
  let cfg := Some (mkCacheConfig (Some key) ttl None) in
  let w1 := later elapsed (cachedQueryBuilder first cfg w).2 in
  let run := cachedQueryBuilder second cfg w1 in
  generateCacheKey second = Normal key
  ∧ run.1 = Normal result ∧ executed run.2 = executed w ++ [first].
Proof.
  intros Hsame Hgen Hnone Hex Hin. cbv beta zeta.
  split.
  { rewrite <- Hgen. symmetry. apply AdvancedRestFacts.generateCacheKey_same.
    - by rewrite (Hsame "model") by (unfold key_options; set_solver).
    - intros k Hk _. by apply Hsame. }
  assert (key_given (Some (mkCacheConfig (Some key) ttl None)) key) as Hkey.
  { eexists. repeat split; try done. by apply (generateCacheKey_not_empty first). }
  rewrite (cachedQueryBuilder_miss execute latency first _ w key) by auto.
  rewrite Hex. cbn [snd].
  rewrite (cachedQueryBuilder_hit execute latency second _ _ key
             (mkItem result (now w + latency first (db w) + default 300000 ttl))).
  - done.
  - done.
  - cbn. apply lookup_insert_eq.
  - cbn. lia.
Qed.

End KeyCollision.

Lemma generated_key_collision_witness :
  let cfg := Some (mkCacheConfig (Some "unknown:page:1:limit:10:sort:createdAt:desc")
                     None None) in
  AdvancedRest.generateCacheKey string_of_Z
    [("page", VNum 1); ("searchFields", VArr [VStr "name"])]
  = Normal "unknown:page:1:limit:10:sort:createdAt:desc"
  ∧ (Advanced.cachedQueryBuilder demo_execute demo_latency
       [("page", VNum 1); ("searchFields", VArr [VStr "name"])] cfg
       (later 0
          (Advanced.cachedQueryBuilder demo_execute demo_latency
             [("page", VNum 1); ("searchFields", VArr [VStr "email"])] cfg
             demo_world).2)).1
    = Normal demo_response.
Proof.
  destruct (generated_key_collision demo_execute demo_latency string_of_Z
              [("page", VNum 1); ("searchFields", VArr [VStr "email"])]
              [("page", VNum 1); ("searchFields", VArr [VStr "name"])]
              None demo_world demo_response tt 0
              "unknown:page:1:limit:10:sort:createdAt:desc")
    as (Hkey & Hrun & _).
  - intros k Hk. unfold key_options in Hk.
    repeat (apply elem_of_cons in Hk as [->|Hk]; [reflexivity|]).
    by apply elem_of_nil in Hk.
  - reflexivity.
  - apply lookup_empty.
  - reflexivity.
  - cbn. lia.
  - by split.
Defined.

End CompositionFacts.

